(** * Rise-Bot front end: media extraction, media classification, transport
      wrapper and conversation state

    A shallow embedding of [src/Chat.tsx] (the [Chat] component's helpers
    [extractVideoUrls], [isVideoUrl], [handleSend] and the classification
    branch of its render function) and of the API service
    ([ApiService.askQuestion], [ApiService.testConnection]).

    Conventions of the embedding

    - A JavaScript string is a Rocq [string]; each [ascii] is one UTF-16 code
      unit in the range 0..255 (Basic Latin and Latin-1 Supplement).  On that
      range [String.prototype.toLowerCase] works code unit by code unit and
      stays inside the range, so it is modelled exactly.
    - A JavaScript value of static type [unknown] is a [value]; an object is
      the list of its own enumerable string-keyed properties in property
      enumeration order, with distinct keys.
    - A call that can complete abruptly returns a [completion]; the body of a
      [try] block that mutates the local array [urls] is a computation in the
      state-and-exception monad [M]. *)

From Stdlib Require Import String Ascii List Bool NArith ZArith Lia DecimalString.
Import ListNotations.

Set Implicit Arguments.
Set Warnings "-register-all".

Local Open Scope string_scope.
Local Open Scope list_scope.

(* ================================================================== *)
(** ** Strings *)

Module JsString.

(** Code unit of a character. *)
Definition code (c : ascii) : N := N_of_ascii c.

(** [toLowerCase] of one code unit below 256: [A-Z] and the Latin-1 capitals
    U+00C0..U+00DE except the multiplication sign U+00D7 move up by 32. *)
Definition lower_char (c : ascii) : ascii :=
  let n := code c in
  if ((65 <=? n) && (n <=? 90))%N
     || ((192 <=? n) && (n <=? 222) && negb (n =? 215))%N
  then ascii_of_N (n + 32)
  else c.

(** [s.toLowerCase()] *)
Fixpoint toLowerCase (s : string) : string :=
  match s with
  | EmptyString => EmptyString
  | String c tl => String (lower_char c) (toLowerCase tl)
  end.

(** [s.startsWith(searchString)] *)
Fixpoint startsWith (s searchString : string) {struct searchString} : bool :=
  match searchString with
  | EmptyString => true
  | String p ptl =>
      match s with
      | EmptyString => false
      | String c tl => Ascii.eqb c p && startsWith tl ptl
      end
  end.

(** [s.includes(searchString)]: [searchString] occurs at some position. *)
Fixpoint includes (s searchString : string) : bool :=
  startsWith s searchString
  || match s with
     | EmptyString => false
     | String _ tl => includes tl searchString
     end.

(** WhiteSpace and LineTerminator code units below 256, the ones
    [String.prototype.trim] strips: TAB, LF, VT, FF, CR, SPACE, NBSP. *)
Definition is_white_space (c : ascii) : bool :=
  let n := code c in
  ((9 <=? n) && (n <=? 13) || (n =? 32) || (n =? 160))%N.

(** Truthiness of [s.trim()]: the trimmed string is non-empty exactly when
    [s] has a code unit that is not white space. *)
Fixpoint trim_nonempty (s : string) : bool :=
  match s with
  | EmptyString => false
  | String c tl => negb (is_white_space c) || trim_nonempty tl
  end.

(** Template-literal rendering of a non-negative integer. *)
Definition of_N (n : N) : string := NilZero.string_of_uint (N.to_uint n).

(** Number::toString of an integer. *)
Definition of_Z (z : Z) : string :=
  match z with
  | Zneg p => "-" ++ of_N (Npos p)
  | _ => of_N (Z.to_N z)
  end.

End JsString.
Import JsString.

(* ================================================================== *)
(** ** Media classifier ([isVideoUrl] and the render branch) *)

Module Classifier.

Definition videoExtensions : list string :=
  [".mp4"; ".webm"; ".ogg"; ".avi"; ".mov"; ".wmv"; ".flv"; ".mkv"; ".m4v"; ".3gp"].

Definition videoHosts : list string :=
  ["youtube.com"; "youtu.be"; "vimeo.com"; "twitch.tv"; "stream"; "video"].

(** [isVideoUrl(url)].  The [try] body only calls string methods on a
    string, none of which throws, so the [catch] branch is dead and the
    function is the value of the [try] body. *)
Definition isVideoUrl (url : string) : bool :=
  let lowerUrl := toLowerCase url in
  if startsWith lowerUrl "rtsp://" then true
  else
    let hasVideoExtension := existsb (fun ext => includes lowerUrl ext) videoExtensions in
    let hasVideoKeywords :=
      includes lowerUrl "video" || includes lowerUrl "stream"
      || includes lowerUrl "live" || includes lowerUrl "cam"
      || includes lowerUrl "feed" || includes lowerUrl "rtsp" in
    let hasVideoHost := existsb (fun host => includes lowerUrl host) videoHosts in
    hasVideoExtension || hasVideoKeywords || hasVideoHost.

(** The three panels the render function chooses between for one URL. *)
Inductive media_kind : Set :=
| VideoFile    (* the <video> element *)
| RtspStream   (* the RTSPPlayer panel *)
| NonMedia.    (* the plain outbound link *)

(** The classification branch of the render function:
    [isVideoUrl(url) ? (url.toLowerCase().startsWith('rtsp://') ? RTSPPlayer
    : video) : link]. *)
Definition classify (url : string) : media_kind :=
  if isVideoUrl url then
    if startsWith (toLowerCase url) "rtsp://" then RtspStream else VideoFile
  else NonMedia.

End Classifier.
Import Classifier.

(* ================================================================== *)
(** ** JavaScript values and abrupt completion *)

Module Js.

(** An exception value: an [Error] object with its [name] and [message]. *)
Record js_error : Set := mkError { err_name : string; err_message : string }.

(** [new Error(message)] *)
Definition Error (message : string) : js_error := mkError "Error" message.

(** The TypeError of a property read on [null] or [undefined]. *)
Definition TypeError_read (what key : string) : js_error :=
  mkError "TypeError"
    ("Cannot read properties of " ++ what ++ " (reading '" ++ key ++ "')").

(** Outcome of evaluating a call or an awaited promise: a value (the promise
    resolved) or a thrown exception (the promise rejected). *)
Inductive completion (A : Type) : Type :=
| Normal (a : A)
| Throw (e : js_error).
Arguments Throw {A} e.

(** A property of an object: a data property holding a value, or an
    accessor property whose getter throws when the property is read. *)
Inductive slot (V : Type) : Type :=
| Data (v : V)
| Getter (e : js_error).
Arguments Getter {V} e.

(** Values of static type [unknown].  Numbers are the integers (the values
    are never computed with; only the rendering of a number as text, exact
    for integers of magnitude below 10^21, depends on this); an object is
    the ordered list of its own enumerable properties. *)
Inductive value : Type :=
| VUndefined
| VNull
| VBool (b : bool)
| VNumber (z : Z)
| VString (s : string)
| VArray (elems : list value)
| VObject (props : list (string * slot value)).

(** ToBoolean *)
Definition truthy (v : value) : bool :=
  match v with
  | VUndefined | VNull => false
  | VBool b => b
  | VNumber z => negb (z =? 0)%Z
  | VString s => negb (s =? EmptyString)
  | VArray _ | VObject _ => true
  end.

(** Own property named [key] of a property list. *)
Fixpoint lookup (key : string) (props : list (string * slot value))
  : option (slot value) :=
  match props with
  | [] => None
  | (k, p) :: tl => if k =? key then Some p else lookup key tl
  end.

(** [v.key] / [v[key]] for a property name that no built-in prototype
    defines (every name the sources read is of that kind): a primitive, an
    array and an object without the property give [undefined]; [null] and
    [undefined] throw; a throwing getter throws. *)
Definition Get (v : value) (key : string) : completion value :=
  match v with
  | VUndefined => Throw (TypeError_read "undefined" key)
  | VNull => Throw (TypeError_read "null" key)
  | VObject props =>
      match lookup key props with
      | None => Normal VUndefined
      | Some (Data x) => Normal x
      | Some (Getter e) => Throw e
      end
  | _ => Normal VUndefined
  end.

(** Reading every property of a property list, in order. *)
Fixpoint read_all (props : list (string * slot value)) : completion (list value) :=
  match props with
  | [] => Normal []
  | (_, Data v) :: tl =>
      match read_all tl with
      | Normal vs => Normal (v :: vs)
      | Throw e => Throw e
      end
  | (_, Getter e) :: _ => Throw e
  end.

Fixpoint chars (s : string) : list value :=
  match s with
  | EmptyString => []
  | String c tl => VString (String c EmptyString) :: chars tl
  end.

(** [Object.values(v)] *)
Definition Object_values (v : value) : completion (list value) :=
  match v with
  | VUndefined | VNull =>
      Throw (mkError "TypeError" "Cannot convert undefined or null to object")
  | VBool _ | VNumber _ => Normal []
  | VString s => Normal (chars s)
  | VArray elems => Normal elems
  | VObject props => read_all props
  end.

(** *** Statements that mutate one local array

    [M A] is a computation over the contents of the local array [urls]: it
    completes normally with an [A] or abruptly with an exception, and in
    both cases leaves the array as it was at that moment. *)
Definition M (A : Type) : Type := list string -> completion A * list string.

Definition ret {A} (a : A) : M A := fun urls => (Normal a, urls).

Definition bind {A B} (m : M A) (k : A -> M B) : M B :=
  fun urls =>
    match m urls with
    | (Normal a, urls') => k a urls'
    | (Throw e, urls') => (Throw e, urls')
    end.

(** Evaluating an expression that may throw and does not touch [urls]. *)
Definition lift {A} (c : completion A) : M A := fun urls => (c, urls).

(** [urls.push(s)] *)
Definition push (s : string) : M unit := fun urls => (Normal tt, urls ++ [s]).

(** [urls.push(...l)] *)
Definition push_all (l : list string) : M unit := fun urls => (Normal tt, urls ++ l).

(** [l.forEach(f)] *)
Fixpoint forEach {A} (f : A -> M unit) (l : list A) : M unit :=
  match l with
  | [] => ret tt
  | x :: tl => bind (f x) (fun _ => forEach f tl)
  end.

(** [try { body } catch (error) { handler(error) }] *)
Definition try_catch (body : M unit) (handler : js_error -> M unit) : M unit :=
  fun urls =>
    match body urls with
    | (Normal u, urls') => (Normal u, urls')
    | (Throw e, urls') => handler e urls'
    end.

(** [console.log], [console.warn], [console.error]: no effect on the model. *)
Definition console {A} (_ : A) : M unit := ret tt.

(** [const urls = []; stmt; return urls;] *)
Definition return_urls (stmt : M unit) : completion (list string) :=
  match stmt [] with
  | (Normal _, urls) => Normal urls
  | (Throw e, _) => Throw e
  end.

End Js.
Import Js.

Declare Scope js_scope.
Delimit Scope js_scope with js.
Notation "x <- m ;; k" := (bind m (fun x => k))
  (at level 61, m at next level, right associativity) : js_scope.
Notation "m ;; k" := (bind m (fun _ => k))
  (at level 61, right associativity) : js_scope.

(* ================================================================== *)
(** ** Media URL extractor ([extractVideoUrls]) *)

Module Extractor.

Local Open Scope js_scope.

Definition videoFields : list string :=
  ["video_url"; "video_urls"; "stream_url"; "stream_urls";
   "feed_url"; "feed_urls"; "camera_url"; "camera_urls"].

(** [arr.forEach(url => { if (typeof url === 'string') urls.push(url) })] *)
Definition push_strings (arr : list value) : M unit :=
  forEach (fun url => match url with VString s => push s | _ => ret tt end) arr.

(** [if (toolData.url && typeof toolData.url === 'string') urls.push(toolData.url)] *)
Definition direct_url (toolData : value) : M unit :=
  u <- lift (Get toolData "url") ;;
  match u with
  | VString s => if truthy u then push s else ret tt
  | _ => ret tt
  end.

(** [if (toolData.urls && Array.isArray(toolData.urls)) toolData.urls.forEach(...)] *)
Definition direct_urls (toolData : value) : M unit :=
  u <- lift (Get toolData "urls") ;;
  match u with
  | VArray arr => push_strings arr
  | _ => ret tt
  end.

(** The callback of [videoFields.forEach]. *)
Definition video_field (toolData : value) (field : string) : M unit :=
  f <- lift (Get toolData field) ;;
  if truthy f then
    match f with
    | VString s => push s
    | VArray arr => push_strings arr
    | _ => ret tt
    end
  else ret tt.

(** The statements of the [try] block before [Object.values]. *)
Definition direct_fields (toolData : value) : M unit :=
  direct_url toolData ;;
  direct_urls toolData ;;
  forEach (video_field toolData) videoFields.

(** [extractVideoUrls(toolData)].

    The recursion is structural in [toolData].  [Object.values(toolData)]
    first reads every property (and throws if a getter does); the callback
    then runs on the values in the same order, which is written here as a
    [forEach] over the properties themselves.  [extractVideoUrls_unfold]
    below restates the function with the list [Object.values] returns.

    The resource limits of an engine are not part of the embedding: a call
    stack that overflows in the recursion, or a spread in
    [urls.push(...nestedUrls)] with more arguments than the engine takes,
    raises a RangeError inside the [try] block, which ends that call early
    like any other error.  What is proved below about the candidates of
    nested mappings is proved for payloads within those limits. *)
Fixpoint extractVideoUrls (toolData : value) : completion (list string) :=
  if negb (truthy toolData) then Normal []
  else
    let nested (value : value) : M unit :=
      match value with
      | VObject _ =>
          nestedUrls <- lift (extractVideoUrls value) ;;
          push_all nestedUrls
      | _ => ret tt
      end in
    return_urls
      (try_catch
         (direct_fields toolData ;;
          lift (Object_values toolData) ;;
          match toolData with
          | VObject props =>
              forEach (fun p : string * slot Js.value =>
                         match p with
                         | (_, Data value) => nested value
                         | (_, Getter _) => ret tt
                         end) props
          | VArray elems => forEach nested elems
          | _ => ret tt
          end ;;
          console "Extracted video URLs:")
         (fun error => console error)).

(** The callback of [Object.values(toolData).forEach]. *)
Definition nested (value : value) : M unit :=
  match value with
  | VObject _ =>
      nestedUrls <- lift (extractVideoUrls value) ;;
      push_all nestedUrls
  | _ => ret tt
  end.

(** The body of the [try] block. *)
Definition try_body (toolData : value) : M unit :=
  direct_fields toolData ;;
  values <- lift (Object_values toolData) ;;
  forEach nested values ;;
  console "Extracted video URLs:".

End Extractor.
Import Extractor.

(* ================================================================== *)
(** ** Transport wrapper ([ApiService]) *)

Module Api.

(** Sequencing of calls that may throw (outside any [urls] array). *)
Definition and_then {A B} (c : completion A) (k : A -> completion B) : completion B :=
  match c with
  | Normal a => k a
  | Throw e => Throw e
  end.

(** [try { body } catch (error) { handler(error) }] for such calls. *)
Definition try_c {A} (body : completion A) (handler : js_error -> completion A)
  : completion A :=
  match body with
  | Normal a => Normal a
  | Throw e => handler e
  end.

Declare Scope completion_scope.
Notation "x <- c ;; k" := (and_then c (fun x => k))
  (at level 61, c at next level, right associativity) : completion_scope.
Local Open Scope completion_scope.

(** [l.join(",")] *)
Fixpoint join (l : list string) : string :=
  match l with
  | [] => EmptyString
  | [x] => x
  | x :: tl => (x ++ "," ++ join tl)%string
  end.

(** ToString: the conversion [new Error(message)] applies to its argument.
    An array is joined with commas, [null] and [undefined] elements giving
    the empty string; an object without an own [toString] property is
    ["[object Object]"], one with a (never callable) own data property of
    that name has no primitive value.  A number is written with all its
    digits, as Number::toString does for integers of magnitude below
    10^21. *)
Fixpoint ToString (v : value) : completion string :=
  match v with
  | VUndefined => Normal "undefined"
  | VNull => Normal "null"
  | VBool b => Normal (if b then "true" else "false")
  | VNumber z => Normal (of_Z z)
  | VString s => Normal s
  | VArray elems =>
      parts <-
        (fix each (l : list value) : completion (list string) :=
           match l with
           | [] => Normal []
           | x :: tl =>
               sx <- match x with
                     | VUndefined | VNull => Normal EmptyString
                     | _ => ToString x
                     end ;;
               stl <- each tl ;;
               Normal (sx :: stl)
           end) elems ;;
      Normal (join parts)
  | VObject props =>
      match lookup "toString" props with
      | None => Normal "[object Object]"
      | Some (Data _) =>
          Throw (mkError "TypeError" "Cannot convert object to primitive value")
      | Some (Getter e) => Throw e
      end
  end.

(** What [fetch] is called with.  [req_body] is the value whose JSON text
    is the request body. *)
Record Request : Type := mkRequest
  { req_url : string; req_method : string; req_body : option value }.

(** What [fetch] resolves to: the status code and the outcome of
    [response.json()], which rejects with a SyntaxError when the body is
    not JSON text. *)
Record Response : Type := mkResponse
  { status : Z; json : completion value }.

(** [response.ok]: the status is in the range 200 to 299. *)
Definition ok (response : Response) : bool :=
  ((200 <=? status response) && (status response <=? 299))%Z.

Section Service.

(** The network: [fetch] resolves to a response or rejects. *)
Variable fetch : Request -> completion Response.

(** [import.meta.env.VITE_API_BASE_URL || 'http://localhost:8070'] *)
Variable API_BASE_URL : string.

(** [const requestData = { thread_id: threadId, message: message }] *)
Definition requestData (message threadId : string) : value :=
  VObject [("thread_id", Data (VString threadId));
           ("message", Data (VString message))].

(** The call [fetch(`${this.baseUrl}/chat/ask`, { method: 'POST', ... })] *)
Definition ask_request (message threadId : string) : Request :=
  mkRequest (API_BASE_URL ++ "/chat/ask") "POST" (Some (requestData message threadId)).

(** The call [fetch(`${this.baseUrl}/docs`, { method: 'GET' })] *)
Definition docs_request : Request :=
  mkRequest (API_BASE_URL ++ "/docs") "GET" None.

(** [askQuestion(message, threadId)]: the settlement of the promise it
    returns. *)
Definition askQuestion (message threadId : string) : completion value :=
  try_c
    (response <- fetch (ask_request message threadId) ;;
     if negb (ok response) then
       errorData <- json response ;;
       detail <- Get errorData "detail" ;;
       msg <- (if truthy detail then ToString detail
               else Normal ("HTTP error! status: " ++ of_Z (status response))%string) ;;
       Throw (Error msg)
     else
       data <- json response ;;
       Normal data)
    (fun error => Throw error).

(** [testConnection()] *)
Definition testConnection : completion bool :=
  try_c
    (response <- fetch docs_request ;;
     Normal (ok response))
    (fun error => Normal false).

End Service.

End Api.
Import Api.

(* ================================================================== *)
(** ** Conversation state of the [Chat] component *)

Module Chat.

Local Open Scope completion_scope.

Inductive Sender : Set := user | bot.

(** [interface Message].  [text] and [toolData] hold what the response
    carried, whatever its type; an absent [toolData] is [undefined]. *)
Record Message : Type := mkMessage
  { id : nat; text : value; sender : Sender; toolData : value }.

(** The [useState] cells of the component.  [inflight] is the call of
    [handleSend] that awaits its response, if any, represented by the
    [messages.length] its closure captured. *)
Record ChatState : Type := mkState
  { messages : list Message;
    input : string;
    isLoading : bool;
    inflight : option nat }.

Definition greeting : Message :=
  mkMessage 1
    (VString "Hi there! I'm Rise Bot, your AI assistant. What can I help you with today?")
    bot VUndefined.

Definition initial : ChatState := mkState [greeting] EmptyString false None.

(** [setMessages(prev => [...prev, m])] *)
Definition setMessages_append (m : Message) (s : ChatState) : ChatState :=
  mkState (messages s ++ [m]) (input s) (isLoading s) (inflight s).

Definition setInput (v : string) (s : ChatState) : ChatState :=
  mkState (messages s) v (isLoading s) (inflight s).

Definition setIsLoading (b : bool) (s : ChatState) : ChatState :=
  mkState (messages s) (input s) b (inflight s).

Definition errorText : string :=
  "Sorry, I'm having trouble connecting to the server. Please try again later.".

(** The guard of [handleSend]: [input.trim() && !isLoading]. *)
Definition can_send (s : ChatState) : bool :=
  trim_nonempty (input s) && negb (isLoading s).

(** [handleSend] up to its [await]: the guard, the user message and the
    two flags.  The closure keeps [messages.length] and [input] of the
    render it was created in, which is the current one. *)
Definition handleSend_begin (s : ChatState) : ChatState :=
  if can_send s then
    let userMessage := mkMessage (length (messages s) + 1) (VString (input s)) user VUndefined in
    let s1 := setMessages_append userMessage s in
    let s2 := setInput EmptyString s1 in
    let s3 := setIsLoading true s2 in
    mkState (messages s3) (input s3) (isLoading s3) (Some (length (messages s)))
  else s.

(** What the [try] block builds once the awaited call has settled. *)
Definition botResponse (len : nat) (settled : completion value) : completion Message :=
  response <- settled ;;
  text <- Get response "response" ;;
  tool_data <- Get response "tool_data" ;;
  Normal (mkMessage (len + 2) text bot tool_data).

Definition errorMessage (len : nat) : Message :=
  mkMessage (len + 2) (VString errorText) bot VUndefined.

(** [handleSend] from its [await] on: [try], [catch] and [finally]. *)
Definition handleSend_resume (settled : completion value) (s : ChatState) : ChatState :=
  match inflight s with
  | None => s
  | Some len =>
      let s1 := match botResponse len settled with
                | Normal m => setMessages_append m s
                | Throw _ => setMessages_append (errorMessage len) s
                end in
      let s2 := setIsLoading false s1 in
      mkState (messages s2) (input s2) (isLoading s2) None
  end.

(** One whole run of [handleSend], nothing else happening in between. *)
Definition handleSend (askQuestion : string -> string -> completion value)
           (threadId : string) (s : ChatState) : ChatState :=
  if can_send s then
    handleSend_resume (askQuestion (input s) threadId) (handleSend_begin s)
  else s.

(** What can happen to the component. *)
Inductive event : Type :=
| Typed (v : string)                  (* onChange of the textarea *)
| Submit                              (* click on the button or Enter *)
| Settled (r : completion value).     (* the awaited promise settles *)

Definition step (s : ChatState) (ev : event) : ChatState :=
  match ev with
  | Typed v => setInput v s
  | Submit => handleSend_begin s
  | Settled r => handleSend_resume r s
  end.

Definition run (s : ChatState) (evs : list event) : ChatState :=
  fold_left step evs s.

(** What the render function shows under one message. *)
Definition media_panels (m : Message) : completion (list (string * media_kind)) :=
  videoUrls <- extractVideoUrls (toolData m) ;;
  Normal (map (fun url => (url, classify url)) videoUrls).

End Chat.
Import Chat.

(* ================================================================== *)
(** ** Vocabulary of the statements *)

Module Spec.

(** ASCII letters. *)
Definition is_ascii_upper (c : ascii) : bool := ((65 <=? code c) && (code c <=? 90))%N.
Definition is_ascii_lower (c : ascii) : bool := ((97 <=? code c) && (code c <=? 122))%N.

(** Two code units that are equal, or the two cases of one ASCII letter. *)
Definition same_letter (c d : ascii) : bool :=
  Ascii.eqb c d
  || (is_ascii_upper c && is_ascii_lower d && (code c + 32 =? code d)%N)
  || (is_ascii_lower c && is_ascii_upper d && (code d + 32 =? code c)%N).

(** [s] begins with [prefix], up to the case of ASCII letters. *)
Fixpoint starts_with_ignore_case (s prefix : string) {struct prefix} : bool :=
  match prefix with
  | EmptyString => true
  | String d prefix' =>
      match s with
      | EmptyString => false
      | String c s' => same_letter c d && starts_with_ignore_case s' prefix'
      end
  end.

(** Strings of ASCII code units. *)
Fixpoint only_ascii (s : string) : bool :=
  match s with
  | EmptyString => true
  | String c tl => (code c <? 128)%N && only_ascii tl
  end.

(** No own property of the value is an accessor that throws; so it is for
    every value that [response.json()] produces. *)
Definition own_getter_free (v : value) : bool :=
  match v with
  | VObject props =>
      forallb (fun p : string * slot value =>
                 match snd p with Data _ => true | Getter _ => false end) props
  | _ => true
  end.

(** A statement that completes normally from every state of the array. *)
Definition normal (m : M unit) : Prop :=
  forall urls, exists urls', m urls = (Normal tt, urls').

(** The payloads of the worked examples. *)
Definition payload_urls : value :=
  VObject [("urls", Data (VArray [VString "a.mp4"; VString "b"]))].

Definition body_hi : value :=
  VObject [("response", Data (VString "hi")); ("tool_data", Data payload_urls)].

Definition payload_inner : value := VObject [("video_url", Data (VString "x"))].

Definition payload_outer : value := VObject [("outer", Data payload_inner)].

Definition body_bad_thread : value := VObject [("detail", Data (VString "bad thread"))].

(** The rejection of [response.json()] on a body that is not JSON text. *)
Definition syntaxError : js_error :=
  mkError "SyntaxError" "Unexpected token '<', <html>... is not valid JSON".

End Spec.
Import Spec.

(* ================================================================== *)
(** ** The rest of the [Chat] component: key handling and render details *)

Module Render.

(** [s.split(sep)] for a separator of one code unit: the segments between
    the occurrences of [sep]; the empty string gives one empty segment. *)
Fixpoint split (sep : ascii) (s : string) : list string :=
  match s with
  | EmptyString => [EmptyString]
  | String c tl =>
      if Ascii.eqb c sep then EmptyString :: split sep tl
      else match split sep tl with
           | seg :: rest => String c seg :: rest
           | [] => [String c EmptyString]
           end
  end.

(** [arr.pop()]: the last element, [undefined] (here [None]) on an empty
    array. *)
Fixpoint pop (arr : list string) : option string :=
  match arr with
  | [] => None
  | [x] => Some x
  | _ :: tl => pop tl
  end.

(** [url.split('/').pop() || 'IP Camera'], the [cameraName] handed to the
    RTSP panel. *)
Definition cameraName (url : string) : string :=
  match pop (split "/" url) with
  | Some name => if (name =? EmptyString)%string then "IP Camera" else name
  | None => "IP Camera"
  end.

(** [disabled={!input.trim() || isLoading}] of the send button. *)
Definition send_disabled (s : ChatState) : bool :=
  negb (trim_nonempty (input s)) || isLoading s.

(** [handleKeyPress(e)] with [e.key] and [e.shiftKey]: Enter without Shift
    calls [handleSend], which runs up to its [await]. *)
Definition handleKeyPress (key : string) (shiftKey : bool) (s : ChatState) : ChatState :=
  if (key =? "Enter")%string && negb shiftKey then handleSend_begin s else s.

End Render.
Import Render.

(* ================================================================== *)
(** ** The RTSP panel ([RTSPPlayer]) *)

Module RtspPlayer.

(** The [useState] cells of the panel. *)
Record PlayerState : Type := mkPlayer
  { isPlaying : bool; error : option string; isLoading : bool }.

Definition initial : PlayerState := mkPlayer false None false.

(** [!error]: [null] and the empty string are falsy. *)
Definition no_error (s : PlayerState) : bool :=
  match error s with
  | None => true
  | Some m => (m =? EmptyString)%string
  end.

(** The branch [isPlaying && !error] of the render function, the only one
    that holds the [<canvas ref={canvasRef}>] element: [canvasRef.current]
    is an element exactly while that branch is shown. *)
Definition stream_active (s : PlayerState) : bool := isPlaying s && no_error s.

Definition setIsPlaying (b : bool) (s : PlayerState) : PlayerState :=
  mkPlayer b (error s) (isLoading s).

Definition setError (e : option string) (s : PlayerState) : PlayerState :=
  mkPlayer (isPlaying s) e (isLoading s).

Definition setIsLoading (b : bool) (s : PlayerState) : PlayerState :=
  mkPlayer (isPlaying s) (error s) b.

Definition established : string :=
  "WebRTC connection established - RTSP stream should appear here".

Definition unable : string :=
  "Unable to play RTSP stream directly in browser. Use external player.".

(** [startStream()], given whether [canvasRef.current] is an element and
    whether ['RTCPeerConnection' in window].  The function has no [await]:
    it runs to its end in one go. *)
Definition startStream (canvas webrtc : bool) (s : PlayerState) : PlayerState :=
  if negb canvas then s
  else
    let s1 := setIsLoading true s in
    let s2 := setError None s1 in
    let s3 :=
      if webrtc then setError (Some established) (setIsPlaying true s2)
      else (* throw, then the catch block *)
        setIsPlaying false (setError (Some unable) s2) in
    setIsLoading false s3.

(** [stopStream()] *)
Definition stopStream (s : PlayerState) : PlayerState :=
  setError None (setIsPlaying false s).

(** The two buttons of the panel. *)
Inductive click : Type :=
| Start (webrtc : bool)
| Stop.

Definition step (s : PlayerState) (c : click) : PlayerState :=
  match c with
  | Start webrtc => startStream (stream_active s) webrtc s
  | Stop => stopStream s
  end.

Definition run (s : PlayerState) (cs : list click) : PlayerState :=
  fold_left step cs s.

End RtspPlayer.

(* ================================================================== *)
(** ** Further vocabulary *)

Module Terms.

(** The strings among the elements of an array, in order. *)
Fixpoint strings_of (arr : list value) : list string :=
  match arr with
  | [] => []
  | VString s :: tl => s :: strings_of tl
  | _ :: tl => strings_of tl
  end.

(** What the callback of the last loop appends for one value. *)
Definition nested_urls (v : value) : list string :=
  match v with
  | VObject _ =>
      match extractVideoUrls v with
      | Normal l => l
      | Throw _ => []
      end
  | _ => []
  end.

(** The value of a field of the payload, [undefined] when it has none. *)
Definition field (toolData : value) (key : string) : value :=
  match Get toolData key with
  | Normal v => v
  | Throw _ => VUndefined
  end.

(** What a field that may hold one URL or a list of URLs stands for. *)
Definition one_or_many (v : value) : list string :=
  match v with
  | VString s => if (s =? EmptyString)%string then [] else [s]
  | VArray arr => strings_of arr
  | _ => []
  end.

(** The candidates a mapping holds itself, nested mappings aside: the
    string under [url], then the strings of the array under [urls], then,
    for [video_url], [video_urls], [stream_url], [stream_urls], [feed_url],
    [feed_urls], [camera_url], [camera_urls] in this order, the string or
    the strings of the array under it. *)
Definition own_candidates (toolData : value) : list string :=
  match field toolData "url" with
  | VString s => if (s =? EmptyString)%string then [] else [s]
  | _ => []
  end
  ++ match field toolData "urls" with
     | VArray arr => strings_of arr
     | _ => []
     end
  ++ flat_map (fun f => one_or_many (field toolData f))
       ["video_url"; "video_urls"; "stream_url"; "stream_urls";
        "feed_url"; "feed_urls"; "camera_url"; "camera_urls"].

(** The property names the extractor reads. *)
Definition mediaFields : list string := "url" :: "urls" :: videoFields.

Definition is_mediaField (key : string) : bool :=
  existsb (fun f => (f =? key)%string) mediaFields.

(** No mapping anywhere in the value has a property the extractor reads. *)
Fixpoint field_free (v : value) : bool :=
  match v with
  | VArray elems => forallb field_free elems
  | VObject props =>
      forallb (fun p : string * slot value =>
                 match p with
                 | (k, Data x) => negb (is_mediaField k) && field_free x
                 | (k, Getter _) => negb (is_mediaField k)
                 end) props
  | _ => true
  end.

(** Every string that occurs anywhere in the value. *)
Fixpoint strings_in (v : value) : list string :=
  match v with
  | VString s => [s]
  | VArray elems => flat_map strings_in elems
  | VObject props =>
      flat_map (fun p : string * slot value =>
                  match p with
                  | (_, Data x) => strings_in x
                  | (_, Getter _) => []
                  end) props
  | _ => []
  end.

(** A statement that only appends to the array, and only strings that
    satisfy [S], whether it completes normally or not. *)
Definition writes (S : string -> Prop) (A : Type) (m : M A) : Prop :=
  forall urls, exists c l, m urls = (c, urls ++ l) /\ Forall S l.

(** The keywords [isVideoUrl] tests one by one. *)
Definition videoKeywords : list string :=
  ["video"; "stream"; "live"; "cam"; "feed"; "rtsp"].

(** Every substring [isVideoUrl] looks for. *)
Definition patterns : list string := videoExtensions ++ videoKeywords ++ videoHosts.

(** [segments.join(sep)] *)
Fixpoint join_with (sep : string) (segments : list string) : string :=
  match segments with
  | [] => EmptyString
  | [x] => x
  | x :: tl => (x ++ sep ++ join_with sep tl)%string
  end.

(** The states the [Chat] component can be in: from the first render, by
    typing, by a click on the send button, by a key press in the text area
    and by the settlement of the pending request. *)
Inductive reachable : ChatState -> Prop :=
| reach_initial : reachable Chat.initial
| reach_step (s : ChatState) (ev : event) : reachable s -> reachable (Chat.step s ev)
| reach_key (s : ChatState) (key : string) (shiftKey : bool) :
    reachable s -> reachable (handleKeyPress key shiftKey s).

(** The sender at position [i] of a conversation that alternates, the
    greeting first. *)
Definition turn (i : nat) : Sender := if Nat.even i then bot else user.

(** What holds in every state the component can be in: the ids count up
    from 1, the senders alternate from the greeting on, and a request is
    in flight exactly while the last message is the user's. *)
Definition chat_invariant (s : ChatState) : Prop :=
  map id (messages s) = seq 1 (length (messages s))
  /\ map sender (messages s) = map turn (seq 0 (length (messages s)))
  /\ match inflight s with
     | Some len =>
         isLoading s = true /\ length (messages s) = S len
         /\ Nat.even (length (messages s)) = true
     | None => isLoading s = false /\ Nat.even (length (messages s)) = false
     end.

End Terms.
Import Terms.

Unset Implicit Arguments.

(* ================================================================== *)
(** ** Facts about strings *)

(** Boolean comparisons of code units in the context, as propositions. *)
Ltac bool_to_N :=
  repeat match goal with
         | H : (_ && _)%bool = true |- _ => apply andb_true_iff in H; destruct H
         end;
  repeat match goal with
         | H : (_ <=? _)%N = true |- _ => apply N.leb_le in H
         | H : (_ =? _)%N = true |- _ => apply N.eqb_eq in H
         end.

Section StringFacts.

Lemma lower_char_idem (c : ascii) : lower_char (lower_char c) = lower_char c.
Proof.
  destruct c as [b0 b1 b2 b3 b4 b5 b6 b7].
  destruct b0, b1, b2, b3, b4, b5, b6, b7; reflexivity.
Qed.

Lemma toLowerCase_idem (s : string) : toLowerCase (toLowerCase s) = toLowerCase s.
Proof.
  induction s as [|c tl IH]; simpl; [reflexivity|].
  now rewrite lower_char_idem, IH.
Qed.

Lemma toLowerCase_app (a b : string) :
  toLowerCase (a ++ b) = (toLowerCase a ++ toLowerCase b)%string.
Proof.
  induction a as [|c tl IH]; simpl; [reflexivity|].
  now rewrite IH.
Qed.

Lemma startsWith_app (p rest : string) : startsWith (p ++ rest) p = true.
Proof.
  induction p as [|c tl IH]; simpl; [reflexivity|].
  now rewrite Ascii.eqb_refl, IH.
Qed.

Lemma includes_prefix (s sub : string) : startsWith s sub = true -> includes s sub = true.
Proof.
  intros H. destruct s; simpl in *; rewrite H; reflexivity.
Qed.

Lemma includes_app (a sub b : string) : includes (a ++ sub ++ b) sub = true.
Proof.
  induction a as [|c tl IH]; simpl.
  - apply includes_prefix, startsWith_app.
  - rewrite IH. apply orb_true_r.
Qed.

Lemma includes_suffix (a sub : string) : includes (a ++ sub) sub = true.
Proof.
  pose proof (includes_app a sub EmptyString) as H.
  replace (sub ++ EmptyString)%string with sub in H; [exact H|].
  clear H. induction sub as [|c tl IH]; simpl; [reflexivity|]. now rewrite <- IH.
Qed.

Lemma code_inj (c d : ascii) : code c = code d -> c = d.
Proof.
  unfold code. intros H.
  rewrite <- (ascii_N_embedding c), <- (ascii_N_embedding d). now rewrite H.
Qed.

(** Lowercasing does not tell the two cases of an ASCII letter apart. *)
Lemma same_letter_lower (c d : ascii) :
  same_letter c d = true -> lower_char c = lower_char d.
Proof.
  unfold same_letter, is_ascii_upper, is_ascii_lower, lower_char.
  intros H.
  apply orb_true_iff in H as [H|H]; [apply orb_true_iff in H as [H|H]|].
  - apply Ascii.eqb_eq in H. now subst.
  - bool_to_N.
    replace ((65 <=? code c) && (code c <=? 90))%N with true
      by (symmetry; apply andb_true_iff; split; apply N.leb_le; lia).
    simpl.
    replace ((65 <=? code d) && (code d <=? 90))%N with false
      by (symmetry; apply andb_false_iff; right; apply N.leb_gt; lia).
    replace ((192 <=? code d) && (code d <=? 222) && negb (code d =? 215))%N with false
      by (symmetry; apply andb_false_iff; left; apply andb_false_iff; left;
          apply N.leb_gt; lia).
    simpl. replace (code c + 32)%N with (code d) by lia.
    unfold code. apply ascii_N_embedding.
  - bool_to_N.
    replace ((65 <=? code d) && (code d <=? 90))%N with true
      by (symmetry; apply andb_true_iff; split; apply N.leb_le; lia).
    simpl.
    replace ((65 <=? code c) && (code c <=? 90))%N with false
      by (symmetry; apply andb_false_iff; right; apply N.leb_gt; lia).
    replace ((192 <=? code c) && (code c <=? 222) && negb (code c =? 215))%N with false
      by (symmetry; apply andb_false_iff; left; apply andb_false_iff; left;
          apply N.leb_gt; lia).
    simpl. replace (code d + 32)%N with (code c) by lia.
    unfold code. symmetry. apply ascii_N_embedding.
Qed.

(** A code unit that lowercases to an ASCII one is that one, or the capital
    of that letter. *)
Lemma lower_char_ascii (c : ascii) :
  (code (lower_char c) <? 128)%N = true -> same_letter c (lower_char c) = true.
Proof.
  destruct c as [b0 b1 b2 b3 b4 b5 b6 b7].
  destruct b0, b1, b2, b3, b4, b5, b6, b7; vm_compute; intros H;
    solve [reflexivity | discriminate H].
Qed.

Lemma starts_with_ignore_case_lower (s prefix : string) :
  starts_with_ignore_case s prefix = true ->
  startsWith (toLowerCase s) (toLowerCase prefix) = true.
Proof.
  revert s. induction prefix as [|d prefix IH]; intros [|c s] H; simpl in *;
    try discriminate; try reflexivity.
  apply andb_true_iff in H as [Hc Hs].
  rewrite (same_letter_lower _ _ Hc), Ascii.eqb_refl. now apply IH.
Qed.

Lemma lower_starts_with_ignore_case (s prefix : string) :
  only_ascii prefix = true ->
  startsWith (toLowerCase s) prefix = true ->
  starts_with_ignore_case s prefix = true.
Proof.
  revert s. induction prefix as [|d prefix IH]; intros [|c s] Ha H; simpl in *;
    try discriminate; try reflexivity.
  apply andb_true_iff in Ha as [Hd Ha]. apply andb_true_iff in H as [Hc Hs].
  apply Ascii.eqb_eq in Hc. subst d.
  now rewrite (lower_char_ascii c Hd), (IH s Ha Hs).
Qed.

(** The test of the source and the case-blind prefix test agree on the
    scheme. *)
Lemma rtsp_test (url : string) :
  startsWith (toLowerCase url) "rtsp://" = starts_with_ignore_case url "rtsp://".
Proof.
  destruct (starts_with_ignore_case url "rtsp://") eqn:E.
  - exact (starts_with_ignore_case_lower url "rtsp://" E).
  - destruct (startsWith (toLowerCase url) "rtsp://") eqn:F; [|reflexivity].
    rewrite (lower_starts_with_ignore_case url "rtsp://" eq_refl F) in E.
    discriminate E.
Qed.

End StringFacts.

(* ================================================================== *)
(** ** The media classifier *)

Section ClassifierFacts.

(** A URL whose lowercased form starts with the scheme is an RTSP stream. *)
Lemma classify_rtsp_prefix (url : string) :
  startsWith (toLowerCase url) "rtsp://" = true -> classify url = RtspStream.
Proof.
  intros H. unfold classify, isVideoUrl. now rewrite H.
Qed.

(** A recognised extension is its own lowercase form. *)
Lemma videoExtensions_lower (ext : string) :
  In ext videoExtensions -> toLowerCase ext = ext.
Proof.
  unfold videoExtensions. simpl.
  intros H; repeat (destruct H as [H|H]; [subst ext; reflexivity|]); contradiction.
Qed.

(** [isVideoUrl] accepts every URL that ends in a recognised extension. *)
Lemma isVideoUrl_extension (p ext : string) :
  In ext videoExtensions -> isVideoUrl (p ++ ext) = true.
Proof.
  intros Hin. unfold isVideoUrl.
  destruct (startsWith (toLowerCase (p ++ ext)) "rtsp://"); [reflexivity|].
  cbv zeta.
  assert (E : existsb (fun e => includes (toLowerCase (p ++ ext)) e) videoExtensions = true).
  { apply existsb_exists. exists ext. split; [exact Hin|].
    rewrite toLowerCase_app, (videoExtensions_lower _ Hin).
    apply includes_suffix. }
  rewrite E. reflexivity.
Qed.

(** **** Claim C3 (as stated, refuted).
    A URL can end in a recognised video extension and still not be
    classified as video: [rtsp://cam/a.mp4] ends in [.mp4] and is shown in
    the RTSP panel, because the scheme test comes first. *)
Lemma C3_counterexample_rtsp_extension :
  In ".mp4" videoExtensions
  /\ "rtsp://cam/a.mp4" = ("rtsp://cam/a" ++ ".mp4")%string
  /\ starts_with_ignore_case "rtsp://cam/a.mp4" "rtsp://" = true
  /\ classify "rtsp://cam/a.mp4" = RtspStream
  /\ classify "rtsp://cam/a.mp4" <> VideoFile.
Proof.
  repeat split; [simpl; auto | discriminate].
Qed.

(** **** Claim C3 (amended).
    Every URL that ends in one of the recognised video file extensions
    (with its dot: .mp4, .webm, .ogg, .avi, .mov, .wmv, .flv, .mkv, .m4v,
    .3gp) and does not begin with [rtsp://] in any letter case is
    classified as video. *)
Theorem C3_extension_is_video (p ext : string) :
  In ext videoExtensions ->
  starts_with_ignore_case (p ++ ext) "rtsp://" = false ->
  classify (p ++ ext) = VideoFile.
Proof.
  intros Hin Hr. unfold classify.
  now rewrite (isVideoUrl_extension p ext Hin), rtsp_test, Hr.
Qed.

Lemma C3_extension_is_video_witness :
  In ".webm" videoExtensions
  /\ starts_with_ignore_case ("https://host/clip" ++ ".webm") "rtsp://" = false
  /\ classify ("https://host/clip" ++ ".webm") = VideoFile.
Proof.
  assert (Hin : In ".webm" videoExtensions) by (simpl; auto).
  assert (Hr : starts_with_ignore_case ("https://host/clip" ++ ".webm") "rtsp://" = false)
    by reflexivity.
  exact (conj Hin (conj Hr (C3_extension_is_video "https://host/clip" ".webm" Hin Hr))).
Defined.

(** **** Claim C4.
    Every URL that begins with [rtsp://], its letters in any case, is
    classified as an RTSP stream, whatever the rest of the URL holds. *)
Theorem C4_rtsp_scheme_any_case (url : string) :
  starts_with_ignore_case url "rtsp://" = true ->
  classify url = RtspStream.
Proof.
  intros H. apply classify_rtsp_prefix. now rewrite rtsp_test.
Qed.

Lemma C4_rtsp_scheme_any_case_witness :
  starts_with_ignore_case "RtSp://cam.example/live/video.mp4" "rtsp://" = true
  /\ classify "RtSp://cam.example/live/video.mp4" = RtspStream.
Proof.
  assert (H : starts_with_ignore_case "RtSp://cam.example/live/video.mp4" "rtsp://" = true)
    by reflexivity.
  exact (conj H (C4_rtsp_scheme_any_case "RtSp://cam.example/live/video.mp4" H)).
Defined.

Lemma isVideoUrl_lower (url : string) : isVideoUrl (toLowerCase url) = isVideoUrl url.
Proof.
  unfold isVideoUrl. now rewrite toLowerCase_idem.
Qed.

(** **** Claim C10.
    The classifier is case-insensitive as a whole: a URL and its
    lowercased form get the same classification. *)
Theorem C10_classify_case_insensitive (url : string) :
  classify (toLowerCase url) = classify url.
Proof.
  unfold classify. now rewrite isVideoUrl_lower, toLowerCase_idem.
Qed.

End ClassifierFacts.

(* ================================================================== *)
(** ** The media URL extractor *)

Section ExtractorFacts.

Lemma bind_ext {A B : Type} (m : M A) (k1 k2 : A -> M B) (urls : list string) :
  (forall a u, k1 a u = k2 a u) -> bind m k1 urls = bind m k2 urls.
Proof.
  intros H. unfold bind. destruct (m urls) as [[a|e] u]; [apply H | reflexivity].
Qed.

(** Running the callback over the properties is running it over the values
    [Object.values] returned. *)
Lemma forEach_props_values (props : list (string * slot value)) :
  forall values, read_all props = Normal values ->
  forall urls,
    forEach (fun p : string * slot value =>
               match p with
               | (_, Data v) => nested v
               | (_, Getter _) => ret tt
               end) props urls
    = forEach nested values urls.
Proof.
  induction props as [|[k [v|e]] tl IH]; simpl; intros values H urls.
  - injection H as <-. reflexivity.
  - destruct (read_all tl) as [vs|e]; [|discriminate].
    injection H as <-. simpl. apply bind_ext. intros _ u. now apply IH.
  - discriminate.
Qed.

(** The characters of a string are not objects: the callback skips them. *)
Lemma forEach_nested_chars (s : string) (urls : list string) :
  forEach nested (chars s) urls = (Normal tt, urls).
Proof.
  induction s as [|c tl IH]; simpl; [reflexivity|].
  unfold bind. simpl. apply IH.
Qed.

Lemma bind_lift {A B : Type} (c : completion A) (k : A -> M B) (urls : list string) :
  bind (lift c) k urls
  = match c with
    | Normal a => k a urls
    | Throw e => (Throw e, urls)
    end.
Proof.
  unfold bind, lift. destruct c; reflexivity.
Qed.

Lemma return_urls_ext (b1 b2 : M unit) (handler : js_error -> M unit) :
  b1 [] = b2 [] ->
  return_urls (try_catch b1 handler) = return_urls (try_catch b2 handler).
Proof.
  intros H. unfold return_urls, try_catch. now rewrite H.
Qed.

(** [extractVideoUrls] in the shape of the source: the guard, then the
    [try] statement around [try_body], then [return urls]. *)
Lemma extractVideoUrls_unfold (toolData : value) :
  extractVideoUrls toolData
  = if negb (truthy toolData) then Normal []
    else return_urls (try_catch (try_body toolData) (fun error => console error)).
Proof.
  destruct toolData as [| |b|z|s|elems|props]; cbn [extractVideoUrls];
    try reflexivity;
    destruct (negb (truthy _)); try reflexivity;
    apply return_urls_ext; unfold try_body;
    apply bind_ext; intros _ u; rewrite !bind_lift; cbn [Object_values].
  - unfold bind. now rewrite forEach_nested_chars.
  - destruct (read_all props) as [values|e] eqn:E; [|reflexivity].
    unfold bind. now rewrite (forEach_props_values props values E).
Qed.

(** A [try] statement whose handler only logs completes normally, with the
    array as the body left it. *)
Lemma return_urls_try_catch (body : M unit) :
  return_urls (try_catch body (fun error => console error)) = Normal (snd (body [])).
Proof.
  unfold return_urls, try_catch, console, ret.
  destruct (body []) as [[u|e] urls]; reflexivity.
Qed.

(** A call of the extractor completes normally. *)
Lemma extractVideoUrls_total (toolData : value) :
  exists urls, extractVideoUrls toolData = Normal urls.
Proof.
  rewrite extractVideoUrls_unfold.
  destruct (negb (truthy toolData)); [now exists []|].
  rewrite return_urls_try_catch. eauto.
Qed.



(** The callback of the last loop never throws: an error raised inside a
    nested mapping ends the nested call only, and the enclosing call goes on
    with the values that remain. *)
Lemma nested_never_throws (value : value) (urls : list string) :
  exists nestedUrls, nested value urls = (Normal tt, urls ++ nestedUrls).
Proof.
  destruct value; try (exists []; simpl; now rewrite app_nil_r).
  destruct (extractVideoUrls_total (VObject props)) as [l Hl].
  exists l. unfold nested. rewrite bind_lift, Hl. reflexivity.
Qed.

(** *** Where an error can come from

    The [try] block can only be left by an exception that a property read
    raises: on a payload without throwing accessors it runs to its end. *)

Lemma normal_ret : normal (ret tt).
Proof. intros urls. now exists urls. Qed.

Lemma normal_push (s : string) : normal (push s).
Proof. intros urls. now exists (urls ++ [s]). Qed.

Lemma normal_bind (m : M unit) (k : unit -> M unit) :
  normal m -> normal (k tt) -> normal (bind m k).
Proof.
  intros Hm Hk urls. unfold bind.
  destruct (Hm urls) as [u1 ->]. apply Hk.
Qed.

Lemma normal_forEach {A : Type} (f : A -> M unit) (l : list A) :
  (forall x, normal (f x)) -> normal (forEach f l).
Proof.
  intros Hf. induction l as [|x tl IH]; simpl.
  - apply normal_ret.
  - apply normal_bind; [apply Hf | exact IH].
Qed.

Lemma normal_push_strings (arr : list value) : normal (push_strings arr).
Proof.
  apply normal_forEach. intros [| | | |s| |]; auto using normal_ret, normal_push.
Qed.

Lemma normal_nested (value : value) : normal (nested value).
Proof.
  intros urls. destruct (nested_never_throws value urls) as [l ->]. eauto.
Qed.

Lemma lookup_getter_free (key : string) (props : list (string * slot value)) :
  own_getter_free (VObject props) = true ->
  forall e, lookup key props <> Some (Getter e).
Proof.
  simpl. induction props as [|[k p] tl IH]; simpl; intros H e; [discriminate|].
  apply andb_true_iff in H as [Hp Htl].
  destruct (k =? key)%string; [|now apply IH].
  destruct p; [discriminate | discriminate Hp].
Qed.

Lemma Get_getter_free (toolData : value) (key : string) :
  truthy toolData = true -> own_getter_free toolData = true ->
  exists x, Get toolData key = Normal x.
Proof.
  intros Ht Hg. destruct toolData; try discriminate Ht; simpl; eauto.
  pose proof (lookup_getter_free key props Hg) as Hl.
  destruct (lookup key props) as [[x|e]|]; eauto.
  now destruct (Hl e).
Qed.

Lemma read_all_getter_free (props : list (string * slot value)) :
  own_getter_free (VObject props) = true -> exists values, read_all props = Normal values.
Proof.
  simpl. induction props as [|[k [v|e]] tl IH]; simpl; intros H.
  - eauto.
  - destruct (IH H) as [vs ->]. eauto.
  - discriminate H.
Qed.

Lemma Object_values_getter_free (toolData : value) :
  truthy toolData = true -> own_getter_free toolData = true ->
  exists values, Object_values toolData = Normal values.
Proof.
  intros Ht Hg. destruct toolData; try discriminate Ht; simpl; eauto.
  now apply read_all_getter_free.
Qed.

Lemma normal_bind_lift {A : Type} (c : completion A) (k : A -> M unit) (x : A) :
  c = Normal x -> normal (k x) -> normal (bind (lift c) k).
Proof.
  intros -> Hk urls. rewrite bind_lift. apply Hk.
Qed.

Lemma normal_direct_fields (toolData : value) :
  truthy toolData = true -> own_getter_free toolData = true ->
  normal (direct_fields toolData).
Proof.
  intros Ht Hg. unfold direct_fields.
  apply normal_bind; [|apply normal_bind].
  - destruct (Get_getter_free toolData "url" Ht Hg) as [x Hx].
    apply (normal_bind_lift _ _ x Hx).
    destruct x as [| | | |s| |]; try apply normal_ret.
    destruct (truthy (VString s)); [apply normal_push | apply normal_ret].
  - destruct (Get_getter_free toolData "urls" Ht Hg) as [x Hx].
    apply (normal_bind_lift _ _ x Hx).
    destruct x; try apply normal_ret. apply normal_push_strings.
  - apply normal_forEach. intros field.
    destruct (Get_getter_free toolData field Ht Hg) as [x Hx].
    apply (normal_bind_lift _ _ x Hx).
    destruct (truthy x); [|apply normal_ret].
    destruct x; try apply normal_ret; [apply normal_push | apply normal_push_strings].
Qed.

(** On a payload without throwing accessors the [try] block runs to its
    end. *)
Lemma try_body_getter_free (toolData : value) :
  truthy toolData = true -> own_getter_free toolData = true ->
  normal (try_body toolData).
Proof.
  intros Ht Hg. unfold try_body.
  apply normal_bind; [now apply normal_direct_fields|].
  destruct (Object_values_getter_free toolData Ht Hg) as [values Hv].
  apply (normal_bind_lift _ _ values Hv).
  apply normal_bind; [apply normal_forEach, normal_nested | apply normal_ret].
Qed.



(** Under any single key that is none of the recognised fields, a nested
    mapping yields what the extractor finds in it. *)
Lemma extract_through_unrecognised_key (key : string) (props : list (string * slot value)) :
  ~ In key ("url" :: "urls" :: videoFields) ->
  extractVideoUrls (VObject [(key, Data (VObject props))])
  = extractVideoUrls (VObject props).
Proof.
  intros Hk.
  assert (E : forall field, In field ("url" :: "urls" :: videoFields) ->
                            (key =? field)%string = false).
  { intros field Hf. apply String.eqb_neq. intros ->. now apply Hk. }
  destruct (extractVideoUrls_total (VObject props)) as [l Hl].
  rewrite Hl, extractVideoUrls_unfold. cbn [truthy negb].
  rewrite return_urls_try_catch. f_equal.
  unfold try_body, direct_fields, direct_url, direct_urls, video_field, videoFields.
  cbn [forEach Get lookup Object_values read_all].
  rewrite !E by (simpl; tauto).
  unfold nested. cbn -[extractVideoUrls]. rewrite Hl. reflexivity.
Qed.

(** **** Claim C6.
    On [{outer: {video_url: "x"}}] the key [outer] is none of the
    recognised fields, the top level contributes nothing of its own, and
    the recursion into the nested mapping yields exactly ["x"]. *)
Theorem C6_nested_payload :
  ~ In "outer" ("url" :: "urls" :: videoFields)
  /\ direct_fields payload_outer [] = (Normal tt, [])
  /\ Object_values payload_outer = Normal [payload_inner]
  /\ extractVideoUrls payload_inner = Normal ["x"]
  /\ extractVideoUrls payload_outer = Normal ["x"].
Proof.
  repeat split.
  simpl. intros H.
  repeat (destruct H as [H|H]; [discriminate H|]). exact H.
Qed.

End ExtractorFacts.

(* ================================================================== *)
(** ** The transport wrapper *)

Section ApiFacts.

Variable fetch : Request -> completion Response.
Variable API_BASE_URL : string.

Lemma ok_range (response : Response) :
  ok response = true <-> (200 <= status response <= 299)%Z.
Proof.
  unfold ok. rewrite andb_true_iff, !Z.leb_le. reflexivity.
Qed.

Lemma not_ok_range (response : Response) :
  ~ (200 <= status response <= 299)%Z -> ok response = false.
Proof.
  intros H. destruct (ok response) eqn:E; [|reflexivity].
  now apply ok_range in E.
Qed.

(** On a success status the wrapper resolves to the parsed body. *)
Lemma askQuestion_success (message threadId : string) (response : Response) (data : value) :
  fetch (ask_request API_BASE_URL message threadId) = Normal response ->
  ok response = true ->
  json response = Normal data ->
  askQuestion fetch API_BASE_URL message threadId = Normal data.
Proof.
  intros Hf Hok Hj. unfold askQuestion, try_c, and_then.
  now rewrite Hf, Hok, Hj.
Qed.

(** On an error status, a rejection of [response.json()] is what the
    wrapper rejects with: line 40 awaits it outside any handler of its own,
    and the enclosing [catch] rethrows what it caught. *)
Lemma askQuestion_parse_failure (message threadId : string) (response : Response)
      (e : js_error) :
  fetch (ask_request API_BASE_URL message threadId) = Normal response ->
  ok response = false ->
  json response = Throw e ->
  askQuestion fetch API_BASE_URL message threadId = Throw e.
Proof.
  intros Hf Hok Hj. unfold askQuestion, try_c, and_then.
  now rewrite Hf, Hok, Hj.
Qed.

(** On an error status, a body that parses to an object without a [detail]
    gives the status-code message. *)
Lemma askQuestion_status_message (message threadId : string) (response : Response)
      (props : list (string * slot value)) :
  fetch (ask_request API_BASE_URL message threadId) = Normal response ->
  ok response = false ->
  json response = Normal (VObject props) ->
  lookup "detail" props = None ->
  askQuestion fetch API_BASE_URL message threadId
  = Throw (Error ("HTTP error! status: " ++ of_Z (status response))).
Proof.
  intros Hf Hok Hj Hl. unfold askQuestion, try_c, and_then.
  rewrite Hf, Hok, Hj. cbn [negb Get]. now rewrite Hl.
Qed.

(** **** Claim C5.
    When the response has a non-2xx status and its body parses as
    [{"detail":"bad thread"}], the promise rejects with an error whose
    message is exactly ["bad thread"]. *)
Theorem C5_server_detail_message (message threadId : string) (response : Response) :
  fetch (ask_request API_BASE_URL message threadId) = Normal response ->
  ~ (200 <= status response <= 299)%Z ->
  json response = Normal body_bad_thread ->
  exists e,
    askQuestion fetch API_BASE_URL message threadId = Throw e
    /\ err_message e = "bad thread".
Proof.
  intros Hf Hs Hj. exists (Error "bad thread"). split; [|reflexivity].
  unfold askQuestion, try_c, and_then.
  now rewrite Hf, (not_ok_range _ Hs), Hj.
Qed.

(** **** Claim C9.
    [testConnection] always resolves; it resolves to [true] exactly when
    the GET of [{base}/docs] yields a response whose status is in the
    range 200 to 299, and to [false] otherwise. *)
Theorem C9_testConnection :
  exists b,
    testConnection fetch API_BASE_URL = Normal b
    /\ (b = true <->
        exists response,
          fetch (docs_request API_BASE_URL) = Normal response
          /\ (200 <= status response <= 299)%Z).
Proof.
  unfold testConnection, try_c, and_then.
  destruct (fetch (docs_request API_BASE_URL)) as [response|e].
  - exists (ok response). split; [reflexivity|]. rewrite ok_range. split.
    + intros H. now exists response.
    + intros [r [Hr H]]. now injection Hr as <-.
  - exists false. split; [reflexivity|]. split; [discriminate|].
    intros [r [Hr _]]. discriminate Hr.
Qed.

End ApiFacts.

Lemma C5_server_detail_message_witness :
  let fetch := fun _ : Request => Normal (mkResponse 404 (Normal body_bad_thread)) in
  exists e,
    askQuestion fetch "http://localhost:8070" "hello" "thread_1" = Throw e
    /\ err_message e = "bad thread".
Proof.
  intros fetch.
  apply (C5_server_detail_message fetch "http://localhost:8070" "hello" "thread_1"
           (mkResponse 404 (Normal body_bad_thread))).
  - reflexivity.
  - simpl. lia.
  - reflexivity.
Defined.

(** **** Claim C2 (the code at the failing input).
    A 502 response whose body is an HTML page: [response.json()] rejects with
    a SyntaxError and [askQuestion] rejects with that very error, whose
    message is not the status-code message.  The status-code message is what
    the same status gives when the body parses to an object without
    [detail]. *)
Theorem C2_unparseable_error_body :
  let html := fun _ : Request => Normal (mkResponse 502 (Throw syntaxError)) in
  let empty := fun _ : Request => Normal (mkResponse 502 (Normal (VObject []))) in
  askQuestion html "http://localhost:8070" "hello" "thread_1" = Throw syntaxError
  /\ err_message syntaxError <> "HTTP error! status: 502"
  /\ askQuestion empty "http://localhost:8070" "hello" "thread_1"
     = Throw (Error "HTTP error! status: 502").
Proof.
  repeat split. discriminate.
Qed.

(* ================================================================== *)
(** ** The conversation *)

Section ChatFacts.

Lemma step_appends (s : ChatState) (ev : event) :
  exists new, messages (step s ev) = messages s ++ new.
Proof.
  destruct ev as [v| |r]; simpl.
  - exists []. now rewrite app_nil_r.
  - unfold handleSend_begin.
    destruct (can_send s); simpl.
    + eexists. reflexivity.
    + exists []. now rewrite app_nil_r.
  - unfold handleSend_resume. destruct (inflight s) as [len|]; simpl.
    + destruct (botResponse len r); simpl; eexists; reflexivity.
    + exists []. now rewrite app_nil_r.
Qed.

Lemma run_appends (evs : list event) :
  forall s, exists new, messages (run s evs) = messages s ++ new.
Proof.
  unfold run. induction evs as [|ev evs IH]; intros s; simpl.
  - exists []. now rewrite app_nil_r.
  - destruct (IH (step s ev)) as [new2 H2].
    destruct (step_appends s ev) as [new1 H1].
    exists (new1 ++ new2). now rewrite H2, H1, app_assoc.
Qed.

(** **** Claim C8.
    Every transition of the component (typing, a user send, a bot
    response, an error response), and so every sequence of them, only
    appends to the message list: the old list is a prefix of the new one
    and every message keeps its position and its contents. *)
Theorem C8_messages_append_only (s : ChatState) (evs : list event) :
  exists new,
    messages (run s evs) = messages s ++ new
    /\ (forall i m,
          nth_error (messages s) i = Some m ->
          nth_error (messages (run s evs)) i = Some m).
Proof.
  destruct (run_appends evs s) as [new H]. exists new. split; [exact H|].
  intros i m Hi. rewrite H, nth_error_app1; [exact Hi|].
  apply nth_error_Some. congruence.
Qed.

(** **** Claim C1.
    With a sendable input and no request in flight, a success response
    whose body is [{"response":"hi","tool_data":{"urls":["a.mp4","b"]}}]
    makes the send flow append the user message and exactly one bot
    message, whose text is ["hi"]; the extractor finds in its payload the
    two candidates ["a.mp4"] and ["b"], in that order; ["a.mp4"] is
    classified as video and ["b"] as non-media. *)
Theorem C1_send_hi (fetch : Request -> completion Response)
        (API_BASE_URL threadId : string) (s : ChatState) (response : Response) :
  trim_nonempty (input s) = true ->
  isLoading s = false ->
  fetch (ask_request API_BASE_URL (input s) threadId) = Normal response ->
  (200 <= status response <= 299)%Z ->
  json response = Normal body_hi ->
  exists botMessage,
    messages (handleSend (askQuestion fetch API_BASE_URL) threadId s)
    = messages s
      ++ [mkMessage (length (messages s) + 1) (VString (input s)) user VUndefined;
          botMessage]
    /\ sender botMessage = bot
    /\ text botMessage = VString "hi"
    /\ extractVideoUrls (toolData botMessage) = Normal ["a.mp4"; "b"]
    /\ classify "a.mp4" = VideoFile
    /\ classify "b" = NonMedia
    /\ media_panels botMessage = Normal [("a.mp4", VideoFile); ("b", NonMedia)].
Proof.
  intros Ht Hl Hf Hs Hj.
  exists (mkMessage (length (messages s) + 2) (VString "hi") bot payload_urls).
  repeat split.
  unfold handleSend, handleSend_begin, can_send. rewrite Ht, Hl. cbn.
  rewrite (askQuestion_success fetch API_BASE_URL _ _ response body_hi Hf
             (proj2 (ok_range response) Hs) Hj).
  cbn. now rewrite <- app_assoc.
Qed.

Lemma C1_send_hi_witness :
  let fetch := fun _ : Request => Normal (mkResponse 200 (Normal body_hi)) in
  let s := setInput "hello" initial in
  exists botMessage,
    messages (handleSend (askQuestion fetch "http://localhost:8070") "thread_1" s)
    = messages s
      ++ [mkMessage (length (messages s) + 1) (VString (input s)) user VUndefined;
          botMessage]
    /\ sender botMessage = bot
    /\ text botMessage = VString "hi"
    /\ extractVideoUrls (toolData botMessage) = Normal ["a.mp4"; "b"]
    /\ classify "a.mp4" = VideoFile
    /\ classify "b" = NonMedia
    /\ media_panels botMessage = Normal [("a.mp4", VideoFile); ("b", NonMedia)].
Proof.
  intros fetch s.
  apply (C1_send_hi fetch "http://localhost:8070" "thread_1" s
           (mkResponse 200 (Normal body_hi))).
  - reflexivity.
  - reflexivity.
  - reflexivity.
  - simpl. lia.
  - reflexivity.
Defined.

End ChatFacts.

(* ================================================================== *)
(** ** More on the media URL extractor *)

Section ExtractorShape.

(** A call on a truthy payload returns the array as the [try] block left
    it. *)
Lemma extractVideoUrls_eval (toolData : value) :
  truthy toolData = true ->
  extractVideoUrls toolData = Normal (snd (try_body toolData [])).
Proof.
  intros Ht. rewrite extractVideoUrls_unfold, Ht. cbn [negb].
  apply return_urls_try_catch.
Qed.

Lemma push_strings_spec (arr : list value) :
  forall urls, push_strings arr urls = (Normal tt, urls ++ strings_of arr).
Proof.
  unfold push_strings.
  induction arr as [|x tl IH]; intros urls; simpl.
  - now rewrite app_nil_r.
  - destruct x; simpl; unfold bind; simpl; rewrite IH; try reflexivity.
    now rewrite <- app_assoc.
Qed.

Lemma nested_spec (v : value) (urls : list string) :
  nested v urls = (Normal tt, urls ++ nested_urls v).
Proof.
  destruct v as [| | | | | |props];
    try (unfold nested, nested_urls, ret; now rewrite app_nil_r).
  destruct (extractVideoUrls_total (VObject props)) as [l Hl].
  unfold nested, nested_urls. rewrite bind_lift, Hl. reflexivity.
Qed.

Lemma forEach_nested_spec (values : list value) :
  forall urls,
    forEach nested values urls = (Normal tt, urls ++ flat_map nested_urls values).
Proof.
  induction values as [|v tl IH]; intros urls; simpl.
  - unfold ret. now rewrite app_nil_r.
  - unfold bind. rewrite nested_spec, IH. now rewrite <- app_assoc.
Qed.

Lemma forEach_appends {A : Type} (g : A -> M unit) (h : A -> list string) (l : list A) :
  (forall x urls, In x l -> g x urls = (Normal tt, urls ++ h x)) ->
  forall urls, forEach g l urls = (Normal tt, urls ++ flat_map h l).
Proof.
  induction l as [|x tl IH]; intros H urls; simpl.
  - unfold ret. now rewrite app_nil_r.
  - unfold bind. rewrite H by now left.
    rewrite IH by (intros y u Hy; apply H; now right).
    now rewrite <- app_assoc.
Qed.

(** On a payload without throwing accessors, the first part of the [try]
    block appends the mapping's own candidates. *)
Lemma direct_fields_own (toolData : value) :
  truthy toolData = true ->
  own_getter_free toolData = true ->
  forall urls, direct_fields toolData urls = (Normal tt, urls ++ own_candidates toolData).
Proof.
  intros Ht Hg urls.
  assert (F : forall key, Get toolData key = Normal (field toolData key)).
  { intros key. unfold field.
    now destruct (Get_getter_free toolData key Ht Hg) as [x ->]. }
  unfold direct_fields, own_candidates.
  unfold bind at 1. unfold direct_url. rewrite bind_lift, F.
  assert (E1 : forall u,
             match field toolData "url" with
             | VString s => if truthy (field toolData "url") then push s else ret tt
             | _ => ret tt
             end u
             = (Normal tt,
                u ++ match field toolData "url" with
                     | VString s => if (s =? EmptyString)%string then [] else [s]
                     | _ => []
                     end)).
  { intros u. destruct (field toolData "url") as [| | | |s| |];
      try (unfold ret; now rewrite app_nil_r).
    cbn [truthy]. destruct (s =? EmptyString)%string; cbn [negb];
      [unfold ret; now rewrite app_nil_r | reflexivity]. }
  rewrite E1.
  unfold bind at 1. unfold direct_urls. rewrite bind_lift, F.
  assert (E2 : forall u,
             match field toolData "urls" with
             | VArray arr => push_strings arr
             | _ => ret tt
             end u
             = (Normal tt,
                u ++ match field toolData "urls" with
                     | VArray arr => strings_of arr
                     | _ => []
                     end)).
  { intros u. destruct (field toolData "urls") as [| | | | |arr|];
      try (unfold ret; now rewrite app_nil_r).
    apply push_strings_spec. }
  rewrite E2.
  rewrite (forEach_appends (video_field toolData)
             (fun f => one_or_many (field toolData f))).
  - now rewrite <- !app_assoc.
  - intros f u _. unfold video_field. rewrite bind_lift, F.
    destruct (field toolData f) as [| |b|z|s|arr|props]; cbn [truthy one_or_many];
      try (unfold ret; now rewrite app_nil_r).
    + destruct b; unfold ret; now rewrite app_nil_r.
    + destruct (negb (z =? 0)%Z); unfold ret; now rewrite app_nil_r.
    + destruct (s =? EmptyString)%string; cbn [negb];
        [unfold ret; now rewrite app_nil_r | reflexivity].
    + apply push_strings_spec.
Qed.

(** **** Extra X1.
    On a payload none of whose own properties is a throwing accessor, the
    result begins with the candidates the mapping holds itself, in the
    order in which the code reads the fields: the string under [url], the
    strings of the array under [urls], then the eight synonyms in their
    listed order.  Whatever the nested mappings contribute comes after
    them. *)
Theorem X1_own_candidates_first (toolData : value) :
  truthy toolData = true ->
  own_getter_free toolData = true ->
  exists rest, extractVideoUrls toolData = Normal (own_candidates toolData ++ rest).
Proof.
  intros Ht Hg. rewrite (extractVideoUrls_eval _ Ht).
  destruct (Object_values_getter_free toolData Ht Hg) as [values Hv].
  exists (flat_map nested_urls values). f_equal.
  unfold try_body. unfold bind at 1.
  rewrite (direct_fields_own toolData Ht Hg), bind_lift, Hv.
  unfold bind. rewrite forEach_nested_spec. reflexivity.
Qed.

Lemma X1_own_candidates_first_witness :
  let inner := VObject [("url", Data (VString "nested"))] in
  let toolData :=
    VObject [("camera_urls", Data (VArray [VString "c1"; VNull; VString "c2"]));
             ("first", Data inner);
             ("video_url", Data (VString "v"));
             ("urls", Data (VArray [VString "u1"]));
             ("url", Data (VString "top"))] in
  own_candidates toolData = ["top"; "u1"; "v"; "c1"; "c2"]
  /\ exists rest, extractVideoUrls toolData = Normal (own_candidates toolData ++ rest).
Proof.
  intros inner toolData. split; [reflexivity|].
  exact (X1_own_candidates_first toolData eq_refl eq_refl).
Defined.

(** **** Extra X2.
    A mapping whose only property is [url] or one of the eight synonyms,
    holding a string, yields that string, unless the string is empty: an
    empty string is skipped. *)
Theorem X2_string_field (field s : string) :
  In field ("url" :: videoFields) ->
  extractVideoUrls (VObject [(field, Data (VString s))])
  = Normal (if (s =? EmptyString)%string then [] else [s]).
Proof.
  unfold videoFields. simpl. intros H.
  repeat (destruct H as [H|H]; [subst field; destruct s; reflexivity|]).
  contradiction.
Qed.

Lemma X2_string_field_witness :
  extractVideoUrls (VObject [("camera_url", Data (VString "rtsp://cam/1"))])
  = Normal ["rtsp://cam/1"].
Proof.
  apply (X2_string_field "camera_url" "rtsp://cam/1").
  simpl. tauto.
Defined.

(** **** Extra X3.
    A mapping whose only property is [urls] or one of the eight synonyms
    (singular or plural), holding an array, yields the strings of the array
    in order, empty strings included, and skips every other element. *)
Theorem X3_array_field (field : string) (arr : list value) :
  In field ("urls" :: videoFields) ->
  extractVideoUrls (VObject [(field, Data (VArray arr))]) = Normal (strings_of arr).
Proof.
  intros H. unfold videoFields in H. simpl in H.
  repeat (destruct H as [H|H];
          [subst field; rewrite extractVideoUrls_eval by reflexivity; f_equal;
           unfold try_body, direct_fields, direct_url, direct_urls, video_field, videoFields;
           cbv -[push_strings strings_of]; rewrite !push_strings_spec; reflexivity|]).
  contradiction.
Qed.

Lemma X3_array_field_witness :
  extractVideoUrls
    (VObject [("video_url", Data (VArray [VString "a"; VNumber 3; VString EmptyString;
                                          VObject [("url", Data (VString "hidden"))]]))])
  = Normal ["a"; EmptyString].
Proof.
  apply (X3_array_field "video_url").
  simpl. tauto.
Defined.

(** **** Extra X4.
    An array under a key other than [urls] and the eight synonyms is never
    searched, whatever it holds: mappings inside it are not visited. *)
Theorem X4_array_elsewhere (key : string) (arr : list value) :
  ~ In key ("urls" :: videoFields) ->
  extractVideoUrls (VObject [(key, Data (VArray arr))]) = Normal [].
Proof.
  intros Hk.
  assert (E : forall f, In f ("urls" :: videoFields) -> (key =? f)%string = false).
  { intros f Hf. apply String.eqb_neq. intros ->. now apply Hk. }
  rewrite extractVideoUrls_eval by reflexivity. f_equal.
  unfold try_body, direct_fields, direct_url, direct_urls, video_field, videoFields.
  cbn [forEach Get lookup Object_values read_all].
  destruct (key =? "url")%string; rewrite !E by (simpl; tauto); reflexivity.
Qed.

Lemma X4_array_elsewhere_witness :
  extractVideoUrls
    (VObject [("cameras", Data (VArray [VString "rtsp://cam/1";
                                        VObject [("url", Data (VString "rtsp://cam/2"))]]))])
  = Normal [].
Proof.
  apply (X4_array_elsewhere "cameras").
  simpl. intros H. repeat (destruct H as [H|H]; [discriminate H|]). exact H.
Defined.

(** **** Extra X5.
    The candidates come in the order in which the code reads the fields,
    [url] before the synonyms, not in the order of the properties in the
    payload; and a string found under two fields is returned twice. *)
Theorem X5_field_order (field a b : string) :
  In field videoFields ->
  a <> EmptyString -> b <> EmptyString ->
  extractVideoUrls (VObject [(field, Data (VString b)); ("url", Data (VString a))])
  = Normal [a; b].
Proof.
  intros H Ha Hb. unfold videoFields in H. simpl in H.
  destruct a as [|ca a]; [contradiction|]. destruct b as [|cb b]; [contradiction|].
  repeat (destruct H as [H|H]; [subst field; reflexivity|]).
  contradiction.
Qed.

Lemma X5_field_order_witness :
  extractVideoUrls (VObject [("feed_url", Data (VString "u")); ("url", Data (VString "u"))])
  = Normal ["u"; "u"].
Proof.
  apply (X5_field_order "feed_url" "u" "u").
  - simpl. tauto.
  - discriminate.
  - discriminate.
Defined.

End ExtractorShape.

(* ================================================================== *)
(** ** Properties of the extractor at every depth *)

Section ExtractorDepth.

(** Induction on values, through arrays and property lists. *)
Lemma value_nested_ind (P : value -> Prop) :
  P VUndefined -> P VNull ->
  (forall b, P (VBool b)) -> (forall z, P (VNumber z)) -> (forall s, P (VString s)) ->
  (forall elems, Forall P elems -> P (VArray elems)) ->
  (forall props,
      Forall (fun p : string * slot value =>
                match snd p with Data x => P x | Getter _ => True end) props ->
      P (VObject props)) ->
  forall v, P v.
Proof.
  intros Hu Hn Hb Hz Hs Ha Ho.
  fix IH 1. intros [| |b|z|s|elems|props].
  - exact Hu.
  - exact Hn.
  - apply Hb.
  - apply Hz.
  - apply Hs.
  - apply Ha. induction elems as [|x tl IHl]; constructor; [apply IH | exact IHl].
  - apply Ho. induction props as [|[k [x|e]] tl IHl]; constructor.
    + apply IH.
    + exact IHl.
    + exact I.
    + exact IHl.
Qed.

(** When no field the extractor reads is there, the first part of the [try]
    block leaves the array as it is. *)
Lemma direct_fields_nothing (toolData : value) :
  (forall f, In f mediaFields -> Get toolData f = Normal VUndefined) ->
  forall urls, direct_fields toolData urls = (Normal tt, urls).
Proof.
  intros H urls.
  unfold direct_fields, direct_url, direct_urls, video_field, videoFields.
  cbv [bind lift forEach].
  rewrite !H by (unfold mediaFields, videoFields; simpl; tauto).
  reflexivity.
Qed.

Lemma Get_primitive (toolData : value) (f : string) :
  truthy toolData = true ->
  (forall props, toolData <> VObject props) ->
  Get toolData f = Normal VUndefined.
Proof.
  intros Ht Ho. destruct toolData; try discriminate Ht; try reflexivity.
  now destruct (Ho props).
Qed.

Lemma lookup_field_free (props : list (string * slot value)) (f : string) :
  field_free (VObject props) = true -> In f mediaFields -> lookup f props = None.
Proof.
  intros H Hf. cbn [field_free] in H.
  induction props as [|[k p] tl IH]; [reflexivity|].
  cbn [forallb] in H. apply andb_true_iff in H as [Hp Htl].
  cbn [lookup].
  assert (Hk : is_mediaField k = false).
  { destruct p; [apply andb_true_iff in Hp as [Hp _]|]; now apply negb_true_iff in Hp. }
  destruct (k =? f)%string eqn:E; [|now apply IH].
  apply String.eqb_eq in E. subst k.
  assert (is_mediaField f = true); [|congruence].
  unfold is_mediaField. apply existsb_exists. exists f. split; [exact Hf|apply String.eqb_refl].
Qed.

Lemma flat_map_nothing {A B : Type} (f : A -> list B) (l : list A) :
  Forall (fun x => f x = []) l -> flat_map f l = [].
Proof.
  induction 1 as [|x tl Hx _ IH]; simpl; [reflexivity|]. now rewrite Hx, IH.
Qed.

Lemma nested_urls_nothing (x : value) :
  (field_free x = true -> extractVideoUrls x = Normal []) ->
  field_free x = true -> nested_urls x = [].
Proof.
  intros IH Hx. destruct x; try reflexivity.
  unfold nested_urls. now rewrite (IH Hx).
Qed.

Lemma read_all_field_free (P : value -> Prop) (props : list (string * slot value)) :
  Forall (fun p : string * slot value =>
            match snd p with Data x => P x | Getter _ => True end) props ->
  forall values, read_all props = Normal values -> Forall P values.
Proof.
  induction 1 as [|[k [x|e]] tl Hx _ IH]; simpl; intros values Hv.
  - injection Hv as <-. constructor.
  - destruct (read_all tl) as [vs|e]; [|discriminate].
    injection Hv as <-. constructor; [exact Hx | now apply IH].
  - discriminate.
Qed.

Lemma field_free_props (props : list (string * slot value)) :
  field_free (VObject props) = true ->
  Forall (fun p : string * slot value =>
            match snd p with Data x => field_free x = true | Getter _ => True end) props.
Proof.
  cbn [field_free]. induction props as [|[k [x|e]] tl IH]; intros H.
  - constructor.
  - cbn [forallb] in H. apply andb_true_iff in H as [Hp Htl].
    constructor; [|now apply IH].
    simpl. now apply andb_true_iff in Hp as [_ Hp].
  - cbn [forallb] in H. apply andb_true_iff in H as [Hp Htl].
    constructor; [exact I | now apply IH].
Qed.

Lemma Forall_combine {A : Type} (P Q R : A -> Prop) (l : list A) :
  (forall x, P x -> Q x -> R x) -> Forall P l -> Forall Q l -> Forall R l.
Proof.
  intros H HP. induction HP; intros HQ; inversion HQ; subst; constructor; auto.
Qed.

(** The result of a call whose first part contributes nothing. *)
Lemma extract_nested_only (toolData : value) :
  truthy toolData = true ->
  (forall f, In f mediaFields -> Get toolData f = Normal VUndefined) ->
  extractVideoUrls toolData
  = Normal (match Object_values toolData with
            | Normal values => flat_map nested_urls values
            | Throw _ => []
            end).
Proof.
  intros Ht Hf. rewrite (extractVideoUrls_eval _ Ht). f_equal.
  unfold try_body. unfold bind at 1. rewrite (direct_fields_nothing _ Hf), bind_lift.
  destruct (Object_values toolData) as [values|e]; [|reflexivity].
  unfold bind. now rewrite forEach_nested_spec.
Qed.

Lemma nested_urls_chars (s : string) : flat_map nested_urls (chars s) = [].
Proof.
  induction s as [|c tl IH]; simpl; [reflexivity | exact IH].
Qed.

Lemma field_free_nothing (v : value) :
  field_free v = true -> extractVideoUrls v = Normal [].
Proof.
  induction v as [| |b|z|s|elems IH|props IH] using value_nested_ind; intros Hf.
  - reflexivity.
  - reflexivity.
  - destruct b; reflexivity.
  - destruct z; reflexivity.
  - destruct s as [|c s]; [reflexivity|].
    rewrite extract_nested_only; [|reflexivity|intros; reflexivity].
    cbn [Object_values]. now rewrite nested_urls_chars.
  - rewrite extract_nested_only; [|reflexivity|intros; reflexivity].
    cbn [Object_values]. f_equal. apply flat_map_nothing.
    cbn [field_free] in Hf. rewrite forallb_forall in Hf.
    rewrite Forall_forall in IH |- *. intros x Hx.
    apply nested_urls_nothing; auto.
  - rewrite extract_nested_only;
      [|reflexivity|intros f Hin; cbn [Get]; now rewrite (lookup_field_free props f Hf Hin)].
    cbn [Object_values].
    destruct (read_all props) as [values|e] eqn:E; [|reflexivity].
    f_equal. apply flat_map_nothing.
    pose proof (Forall_combine _ _ _ props
                  (fun p Hp Hq => match snd p as sl
                       return (match sl with Data x => field_free x = true -> extractVideoUrls x = Normal [] | Getter _ => True end)
                              -> (match sl with Data x => field_free x = true | Getter _ => True end)
                              -> (match sl with Data x => nested_urls x = [] | Getter _ => True end)
                     with
                     | Data x => fun a b => nested_urls_nothing x a b
                     | Getter _ => fun _ _ => I
                     end Hp Hq)
                  IH (field_free_props props Hf)) as Hall.
    exact (read_all_field_free (fun x => nested_urls x = []) props Hall values E).
Qed.

(** **** Extra X6.
    A payload in which no mapping, at any depth, has a property named
    [url], [urls] or one of the eight synonyms yields no candidate. *)
Theorem X6_no_field_no_candidate (toolData : value) :
  field_free toolData = true -> extractVideoUrls toolData = Normal [].
Proof.
  apply field_free_nothing.
Qed.

Lemma X6_no_field_no_candidate_witness :
  extractVideoUrls
    (VObject [("title", Data (VString "http://host/video.mp4"));
              ("meta", Data (VObject [("links", Data (VArray [VString "rtsp://cam/1"]));
                                      ("count", Data (VNumber 2))]))])
  = Normal [].
Proof.
  apply X6_no_field_no_candidate. reflexivity.
Defined.

(** *** What the extractor can return *)

Lemma writes_ret (S : string -> Prop) {A : Type} (a : A) : writes S (ret a).
Proof.
  intros urls. exists (Normal a), []. now rewrite app_nil_r.
Qed.

Lemma writes_push (S : string -> Prop) (s : string) : S s -> writes S (push s).
Proof.
  intros H urls. exists (Normal tt), [s]. split; [reflexivity | now constructor].
Qed.

Lemma writes_push_all (S : string -> Prop) (l : list string) :
  Forall S l -> writes S (push_all l).
Proof.
  intros H urls. now exists (Normal tt), l.
Qed.

Lemma writes_bind (S : string -> Prop) {A B : Type} (m : M A) (k : A -> M B) :
  writes S m -> (forall a, writes S (k a)) -> writes S (bind m k).
Proof.
  intros Hm Hk urls. unfold bind.
  destruct (Hm urls) as [c [l [-> Hl]]]. destruct c as [a|e].
  - destruct (Hk a (urls ++ l)) as [c' [l' [-> Hl']]].
    exists c', (l ++ l'). split; [now rewrite app_assoc | now apply Forall_app].
  - now exists (Throw e), l.
Qed.

Lemma writes_bind_lift (S : string -> Prop) {A B : Type} (c : completion A) (k : A -> M B) :
  (forall a, c = Normal a -> writes S (k a)) -> writes S (bind (lift c) k).
Proof.
  intros Hk urls. rewrite bind_lift. destruct c as [a|e].
  - now apply Hk.
  - exists (Throw e), []. now rewrite app_nil_r.
Qed.

Lemma writes_forEach (S : string -> Prop) {A : Type} (f : A -> M unit) (l : list A) :
  (forall x, In x l -> writes S (f x)) -> writes S (forEach f l).
Proof.
  induction l as [|x tl IH]; intros H; simpl.
  - apply writes_ret.
  - apply writes_bind; [apply H; now left|].
    intros _. apply IH. intros y Hy. apply H. now right.
Qed.

Lemma writes_push_strings (S : string -> Prop) (arr : list value) :
  (forall s, In (VString s) arr -> S s) -> writes S (push_strings arr).
Proof.
  intros H. apply writes_forEach. intros x Hx.
  destruct x; try apply writes_ret. apply writes_push. now apply H.
Qed.

(** What a property read returns is part of the value it was read from. *)
Lemma Get_strings_in (toolData v : value) (key : string) :
  Get toolData key = Normal v -> incl (strings_in v) (strings_in toolData).
Proof.
  destruct toolData as [| |b|z|t|elems|props]; simpl; try discriminate;
    try (intros H; injection H as <-; intros s' []).
  induction props as [|[k p] tl IH]; simpl.
  - intros H; injection H as <-; intros s' [].
  - destruct (k =? key)%string.
    + destruct p as [x|e]; [|discriminate].
      intros H; injection H as <-. now apply incl_appl.
    + intros H. apply incl_appr. now apply IH.
Qed.

Lemma read_all_strings_in (props : list (string * slot value)) :
  forall values, read_all props = Normal values ->
  forall x, In x values -> incl (strings_in x) (strings_in (VObject props)).
Proof.
  induction props as [|[k [v|e]] tl IH]; simpl; intros values Hv x Hx.
  - injection Hv as <-. destruct Hx.
  - destruct (read_all tl) as [vs|e]; [|discriminate].
    injection Hv as <-. destruct Hx as [<-|Hx].
    + now apply incl_appl.
    + apply incl_appr. exact (IH vs eq_refl x Hx).
  - discriminate.
Qed.

Lemma read_all_Forall (P : value -> Prop) (props : list (string * slot value)) :
  Forall (fun p : string * slot value =>
            match snd p with Data x => P x | Getter _ => True end) props ->
  forall values, read_all props = Normal values -> forall x, In x values -> P x.
Proof.
  intros H values Hv. apply Forall_forall.
  exact (read_all_field_free P props H values Hv).
Qed.

Lemma writes_direct_fields (toolData : value) :
  writes (fun s => In s (strings_in toolData)) (direct_fields toolData).
Proof.
  assert (Hstr : forall key s, Get toolData key = Normal (VString s) ->
                               In s (strings_in toolData)).
  { intros key s H. apply (Get_strings_in _ _ _ H). now left. }
  assert (Harr : forall key arr, Get toolData key = Normal (VArray arr) ->
                 writes (fun s => In s (strings_in toolData)) (push_strings arr)).
  { intros key arr H. apply writes_push_strings. intros s Hs.
    apply (Get_strings_in _ _ _ H). cbn [strings_in].
    apply in_flat_map. exists (VString s). split; [exact Hs | now left]. }
  unfold direct_fields.
  apply writes_bind; [|intros _; apply writes_bind; [|intros _]].
  - apply writes_bind_lift. intros u Hu.
    destruct u as [| | | |s| |]; try apply writes_ret.
    destruct (truthy (VString s)); [|apply writes_ret].
    apply writes_push. exact (Hstr _ _ Hu).
  - apply writes_bind_lift. intros u Hu.
    destruct u as [| | | | |arr|]; try apply writes_ret.
    exact (Harr _ _ Hu).
  - apply writes_forEach. intros field _.
    apply writes_bind_lift. intros f Hf.
    destruct (truthy f); [|apply writes_ret].
    destruct f as [| | | |s|arr|]; try apply writes_ret.
    + apply writes_push. exact (Hstr _ _ Hf).
    + exact (Harr _ _ Hf).
Qed.

Lemma candidates_from_payload (v : value) :
  forall urls, extractVideoUrls v = Normal urls -> incl urls (strings_in v).
Proof.
  induction v as [| |b|z|s|elems IH|props IH] using value_nested_ind; intros urls Hx.
  1, 2: injection Hx as <-; intros s [].
  all: match type of Hx with
       | extractVideoUrls ?td = _ => destruct (truthy td) eqn:Ht
       end.
  all: try (rewrite extractVideoUrls_unfold, Ht in Hx; injection Hx as <-; intros s' []).
  all: rewrite (extractVideoUrls_eval _ Ht) in Hx; injection Hx as <-;
    match goal with
    | |- incl (snd (try_body ?td [])) ?l =>
        assert (W : writes (fun s => In s l) (try_body td));
        [| destruct (W []) as [c [l' [-> Hl']]]; simpl;
           intros s' Hs'; exact (proj1 (Forall_forall _ _) Hl' s' Hs') ]
    end;
    unfold try_body;
    (apply writes_bind; [apply writes_direct_fields|]); intros _;
    apply writes_bind_lift; intros values Hv;
    (apply writes_bind; [|intros _; apply writes_ret]);
    apply writes_forEach; intros x Hin.
  - injection Hv as <-.
    assert (Hc : forall t, In x (chars t) -> forall ps, x <> VObject ps).
    { induction t as [|c t IHt]; simpl; [tauto|].
      intros [<-|H] ps; [discriminate | now apply IHt]. }
    destruct x as [| | | | | |ps]; try apply writes_ret. now destruct (Hc s Hin ps).
  - injection Hv as <-.
    destruct x as [| | | | | |ps]; try apply writes_ret.
    unfold nested. apply writes_bind_lift. intros l Hl. apply writes_push_all.
    apply Forall_forall. intros s' Hs'. cbn [strings_in].
    apply in_flat_map. exists (VObject ps). split; [exact Hin|].
    exact (proj1 (Forall_forall _ _) IH _ Hin l Hl s' Hs').
  - cbn [Object_values] in Hv.
    destruct x as [| | | | | |ps]; try apply writes_ret.
    unfold nested. apply writes_bind_lift. intros l Hl. apply writes_push_all.
    apply Forall_forall. intros s' Hs'.
    apply (read_all_strings_in props values Hv _ Hin).
    exact (read_all_Forall _ props IH values Hv _ Hin l Hl s' Hs').
Qed.

(** **** Extra X7.
    The extractor never makes a URL up: every candidate it returns is a
    string that occurs in the payload. *)
Theorem X7_candidates_from_payload (toolData : value) (urls : list string) (url : string) :
  extractVideoUrls toolData = Normal urls ->
  In url urls ->
  In url (strings_in toolData).
Proof.
  intros H Hin. exact (candidates_from_payload toolData urls H url Hin).
Qed.

Lemma X7_candidates_from_payload_witness :
  In "b" (strings_in payload_urls).
Proof.
  apply (X7_candidates_from_payload payload_urls ["a.mp4"; "b"] "b").
  - reflexivity.
  - simpl. tauto.
Defined.

End ExtractorDepth.

(* ================================================================== *)
(** ** More on the media classifier *)

Section ClassifierShape.

Lemma startsWith_shorter (s p q : string) :
  startsWith s (p ++ q) = true -> startsWith s p = true.
Proof.
  revert s. induction p as [|c p IH]; intros [|d s] H; simpl in *;
    try reflexivity; try discriminate.
  apply andb_true_iff in H as [Hc Hs]. rewrite Hc. now apply IH.
Qed.

Lemma existsb_false {A : Type} (f : A -> bool) (l : list A) :
  existsb f l = false <-> forall x, In x l -> f x = false.
Proof.
  induction l as [|a tl IH]; simpl.
  - split; [intros _ x [] | reflexivity].
  - rewrite orb_false_iff, IH. split.
    + intros [Ha Ht] x [<-|Hx]; auto.
    + intros H. split; [apply H; now left | intros x Hx; apply H; now right].
Qed.

(** [isVideoUrl] is one substring search for the extensions, the keywords
    and the hosts in the lowercased URL: the early return for the scheme
    does not change its value, since [rtsp] is one of the keywords. *)
Lemma isVideoUrl_patterns (url : string) :
  isVideoUrl url = existsb (fun p => includes (toLowerCase url) p) patterns.
Proof.
  unfold isVideoUrl, patterns. rewrite !existsb_app.
  set (l := toLowerCase url).
  destruct (startsWith l "rtsp://") eqn:E.
  - assert (R : includes l "rtsp" = true).
    { apply includes_prefix. exact (startsWith_shorter l "rtsp" "://" E). }
    unfold videoKeywords. cbn [existsb]. rewrite R.
    now rewrite !orb_true_r.
  - cbv zeta. unfold videoKeywords. cbn [existsb].
    rewrite orb_false_r, !orb_assoc. reflexivity.
Qed.

(** **** Extra X8.
    The RTSP panel is chosen for exactly the URLs that begin with
    [rtsp://] in some letter case. *)
Theorem X8_rtsp_exactly (url : string) :
  classify url = RtspStream <-> starts_with_ignore_case url "rtsp://" = true.
Proof.
  split.
  - unfold classify. rewrite rtsp_test.
    destruct (isVideoUrl url); [|discriminate].
    destruct (starts_with_ignore_case url "rtsp://"); [reflexivity | discriminate].
  - intros H. apply classify_rtsp_prefix. now rewrite rtsp_test.
Qed.

(** **** Extra X9.
    A URL that holds one of the extensions, keywords or host names anywhere,
    in any letter case, is never classified as non-media. *)
Theorem X9_pattern_anywhere (before m after : string) :
  In (toLowerCase m) patterns ->
  classify (before ++ m ++ after) <> NonMedia.
Proof.
  intros Hin.
  assert (E : isVideoUrl (before ++ m ++ after) = true).
  { rewrite isVideoUrl_patterns. apply existsb_exists.
    exists (toLowerCase m). split; [exact Hin|].
    rewrite !toLowerCase_app. apply includes_app. }
  unfold classify. rewrite E.
  destruct (startsWith _ _); discriminate.
Qed.

Lemma X9_pattern_anywhere_witness :
  classify ("https://host/" ++ "Video-Tutorial" ++ ".html") <> NonMedia
  /\ classify ("https://host/clip" ++ ".MP4" ++ ".txt") <> NonMedia.
Proof.
  split.
  - assert (H : classify ("https://host/" ++ ("Video" ++ "-Tutorial.html")) <> NonMedia).
    { apply (X9_pattern_anywhere "https://host/" "Video" "-Tutorial.html").
      unfold patterns, videoKeywords. simpl. tauto. }
    exact H.
  - apply (X9_pattern_anywhere "https://host/clip" ".MP4" ".txt").
    unfold patterns. simpl. tauto.
Defined.

(** **** Extra X10.
    A URL is classified as non-media exactly when its lowercased form holds
    none of the extensions, keywords and host names. *)
Theorem X10_non_media_exactly (url : string) :
  classify url = NonMedia
  <-> forall p, In p patterns -> includes (toLowerCase url) p = false.
Proof.
  rewrite <- existsb_false, <- isVideoUrl_patterns.
  unfold classify. destruct (isVideoUrl url).
  - destruct (startsWith _ _); split; discriminate.
  - split; reflexivity.
Qed.

End ClassifierShape.

(* ================================================================== *)
(** ** The camera name of the RTSP panel *)

Section CameraName.

Lemma split_nonempty (sep : ascii) (s : string) : split sep s <> [].
Proof.
  destruct s as [|c tl]; simpl; [discriminate|].
  destruct (Ascii.eqb c sep); [discriminate|].
  destruct (split sep tl); discriminate.
Qed.

Lemma split_app (sep : ascii) (pre rest : string) :
  split sep (pre ++ String sep rest) = split sep pre ++ split sep rest.
Proof.
  induction pre as [|c p IH]; simpl.
  - now rewrite Ascii.eqb_refl.
  - destruct (Ascii.eqb c sep); [now rewrite IH|].
    rewrite IH. destruct (split sep p) as [|seg r] eqn:E; [|reflexivity].
    now destruct (split_nonempty sep p).
Qed.

Lemma split_no_sep (sep : ascii) (name : string) :
  includes name (String sep EmptyString) = false -> split sep name = [name].
Proof.
  induction name as [|c tl IH]; simpl; [reflexivity|].
  rewrite andb_true_r. intros H. apply orb_false_iff in H as [Hc Ht].
  rewrite Hc, (IH Ht). reflexivity.
Qed.

Lemma segments_no_sep (sep : ascii) (s : string) :
  Forall (fun seg => includes seg (String sep EmptyString) = false) (split sep s).
Proof.
  induction s as [|c tl IH]; simpl.
  - constructor; [reflexivity | constructor].
  - destruct (Ascii.eqb c sep) eqn:E.
    + constructor; [reflexivity | exact IH].
    + destruct (split sep tl) as [|seg r]; [repeat constructor; simpl; now rewrite E|].
      inversion IH as [|? ? Hseg Hr]; subst.
      constructor; [|exact Hr]. simpl. now rewrite E, andb_true_r, Hseg.
Qed.

Lemma pop_In (arr : list string) (x : string) : pop arr = Some x -> In x arr.
Proof.
  induction arr as [|a [|b tl] IH]; simpl; intros H.
  - discriminate.
  - injection H as <-. now left.
  - right. now apply IH.
Qed.

Lemma pop_last (arr : list string) (x : string) : pop (arr ++ [x]) = Some x.
Proof.
  induction arr as [|a tl IH]; [reflexivity|].
  simpl. destruct (tl ++ [x]) eqn:E; [|exact IH].
  now destruct tl.
Qed.

(** Splitting a string at a separator and joining the segments with it gives
    the string back. *)
Lemma split_join (sep : ascii) (s : string) :
  join_with (String sep EmptyString) (split sep s) = s.
Proof.
  induction s as [|c tl IH]; [reflexivity|].
  simpl. destruct (Ascii.eqb c sep) eqn:E.
  - apply Ascii.eqb_eq in E. subst c.
    destruct (split sep tl) as [|seg r] eqn:S; [now destruct (split_nonempty sep tl)|].
    rewrite <- IH. reflexivity.
  - destruct (split sep tl) as [|seg r] eqn:S; [now destruct (split_nonempty sep tl)|].
    destruct r as [|seg' r']; rewrite <- IH; reflexivity.
Qed.

(** **** Extra X11.
    The camera name shown in the RTSP panel is never empty and never holds
    a slash. *)
Theorem X11_cameraName_shape (url : string) :
  cameraName url <> EmptyString /\ includes (cameraName url) "/" = false.
Proof.
  unfold cameraName.
  destruct (pop (split "/" url)) as [name|] eqn:E; [|split; [discriminate|reflexivity]].
  destruct (name =? EmptyString)%string eqn:N; [split; [discriminate|reflexivity]|].
  split.
  - intros ->. discriminate N.
  - apply pop_In in E.
    exact (proj1 (Forall_forall _ _) (segments_no_sep "/" url) name E).
Qed.

(** **** Extra X12.
    The camera name is what follows the last slash of the URL, and the
    fixed name [IP Camera] when nothing follows it. *)
Theorem X12_cameraName_last_segment (before name : string) :
  includes name "/" = false ->
  cameraName (before ++ "/" ++ name)
  = if (name =? EmptyString)%string then "IP Camera" else name.
Proof.
  intros H. unfold cameraName.
  change (before ++ "/" ++ name)%string with (before ++ String "/" name)%string.
  rewrite split_app, (split_no_sep "/" name H), pop_last. reflexivity.
Qed.

Lemma X12_cameraName_last_segment_witness :
  cameraName ("rtsp://10.0.0.5:554/streams" ++ "/" ++ "front-door") = "front-door"
  /\ cameraName ("rtsp://10.0.0.5:554/streams" ++ "/" ++ EmptyString) = "IP Camera".
Proof.
  split.
  - exact (X12_cameraName_last_segment "rtsp://10.0.0.5:554/streams" "front-door" eq_refl).
  - exact (X12_cameraName_last_segment "rtsp://10.0.0.5:554/streams" EmptyString eq_refl).
Defined.

End CameraName.

(* ================================================================== *)
(** ** The RTSP panel *)

Section RtspPanel.

(** **** Extra X13.
    The Start button has no effect: the canvas the guard of [startStream]
    looks for exists only while the stream view is shown, and the stream
    view is not shown at first, so whatever is clicked the panel stays in
    its initial state. *)
Theorem X13_player_never_starts (cs : list RtspPlayer.click) :
  RtspPlayer.run RtspPlayer.initial cs = RtspPlayer.initial.
Proof.
  unfold RtspPlayer.run.
  induction cs as [|c tl IH]; [reflexivity|].
  simpl. destruct c as [webrtc|]; exact IH.
Qed.

(** **** Extra X14.
    No click can bring up the stream view, even if the guard of
    [startStream] were passed: a start always ends with a message in
    [error], and a stop ends with the panel not playing. *)
Theorem X14_stream_view_unreachable (canvas webrtc : bool) (s : RtspPlayer.PlayerState) :
  RtspPlayer.stream_active s = false ->
  RtspPlayer.stream_active (RtspPlayer.startStream canvas webrtc s) = false
  /\ RtspPlayer.stream_active (RtspPlayer.stopStream s) = false
  /\ RtspPlayer.isLoading (RtspPlayer.startStream true webrtc s) = false.
Proof.
  intros H. destruct canvas, webrtc; repeat split; try exact H; reflexivity.
Qed.

Lemma X14_stream_view_unreachable_witness :
  let s := RtspPlayer.mkPlayer true (Some RtspPlayer.unable) true in
  RtspPlayer.stream_active (RtspPlayer.startStream true true s) = false
  /\ RtspPlayer.stream_active (RtspPlayer.stopStream s) = false
  /\ RtspPlayer.isLoading (RtspPlayer.startStream true true s) = false.
Proof.
  intros s. exact (X14_stream_view_unreachable true true s eq_refl).
Defined.

End RtspPanel.

(* ================================================================== *)
(** ** More on the transport wrapper *)

Section ApiShape.

Variable fetch : Request -> completion Response.
Variable API_BASE_URL : string.

(** On an error status the wrapper rejects, whatever the body. *)
Lemma askQuestion_error_status (message threadId : string) (response : Response) :
  fetch (ask_request API_BASE_URL message threadId) = Normal response ->
  ok response = false ->
  exists e, askQuestion fetch API_BASE_URL message threadId = Throw e.
Proof.
  intros Hf Hok. unfold askQuestion, try_c, and_then. rewrite Hf, Hok. cbn [negb].
  destruct (json response) as [errorData|e]; [|eauto].
  destruct (Get errorData "detail") as [detail|e]; [|eauto].
  destruct (truthy detail); [|eauto].
  destruct (ToString detail); eauto.
Qed.

Lemma askQuestion_resolves (message threadId : string) (data : value) :
  askQuestion fetch API_BASE_URL message threadId = Normal data
  <-> exists response,
        fetch (ask_request API_BASE_URL message threadId) = Normal response
        /\ (200 <= status response <= 299)%Z
        /\ json response = Normal data.
Proof.
  split.
  - intros H.
    destruct (fetch (ask_request API_BASE_URL message threadId)) as [response|e] eqn:Hf.
    + destruct (ok response) eqn:Hok.
      * exists response. split; [reflexivity|]. split; [now apply ok_range|].
        unfold askQuestion, try_c, and_then in H. rewrite Hf, Hok in H. cbn [negb] in H.
        destruct (json response); [exact H | discriminate H].
      * destruct (askQuestion_error_status message threadId response Hf Hok) as [e He].
        rewrite He in H. discriminate H.
    + unfold askQuestion, try_c, and_then in H. rewrite Hf in H. discriminate H.
  - intros [response [Hf [Hs Hj]]].
    apply (askQuestion_success fetch API_BASE_URL message threadId response data Hf); auto.
    now apply ok_range.
Qed.

(** **** Extra X15.
    The wrapper resolves exactly when [fetch] resolves with a status from
    200 to 299 and the body parses, and then to the parsed body, unchecked;
    in every other case it rejects. *)
Theorem X15_askQuestion_resolves (message threadId : string) (data : value) :
  askQuestion fetch API_BASE_URL message threadId = Normal data
  <-> exists response,
        fetch (ask_request API_BASE_URL message threadId) = Normal response
        /\ (200 <= status response <= 299)%Z
        /\ json response = Normal data.
Proof.
  apply askQuestion_resolves.
Qed.

(** When [fetch] itself rejects, the wrapper rejects with the same error. *)
Lemma askQuestion_network_failure (message threadId : string) (e : js_error) :
  fetch (ask_request API_BASE_URL message threadId) = Throw e ->
  askQuestion fetch API_BASE_URL message threadId = Throw e.
Proof.
  intros Hf. unfold askQuestion, try_c, and_then. now rewrite Hf.
Qed.

(** **** Extra X16.
    On an error status, a body that is a mapping whose [detail] is a
    non-empty string makes the wrapper reject with that string as message,
    whatever else the mapping holds. *)
Theorem X16_detail_string (message threadId : string) (response : Response)
        (props : list (string * slot value)) (detail : string) :
  fetch (ask_request API_BASE_URL message threadId) = Normal response ->
  ~ (200 <= status response <= 299)%Z ->
  json response = Normal (VObject props) ->
  lookup "detail" props = Some (Data (VString detail)) ->
  detail <> EmptyString ->
  askQuestion fetch API_BASE_URL message threadId = Throw (Error detail).
Proof.
  intros Hf Hs Hj Hl Hd. unfold askQuestion, try_c, and_then.
  rewrite Hf, (not_ok_range _ Hs), Hj. cbn [negb Get]. rewrite Hl. cbn [truthy].
  destruct detail as [|c d]; [contradiction|reflexivity].
Qed.

(** **** Extra X17.
    On an error status, a body that parses to anything but [null] and has
    no [detail], or a falsy one (empty string, [null], [false], [0]), makes
    the wrapper reject with the message [HTTP error! status: ] followed by
    the status code. *)
Theorem X17_status_message (message threadId : string) (response : Response)
        (errorData detail : value) :
  fetch (ask_request API_BASE_URL message threadId) = Normal response ->
  ~ (200 <= status response <= 299)%Z ->
  json response = Normal errorData ->
  Get errorData "detail" = Normal detail ->
  truthy detail = false ->
  askQuestion fetch API_BASE_URL message threadId
  = Throw (Error ("HTTP error! status: " ++ of_Z (status response))).
Proof.
  intros Hf Hs Hj Hg Ht. unfold askQuestion, try_c, and_then.
  now rewrite Hf, (not_ok_range _ Hs), Hj, Hg, Ht.
Qed.

End ApiShape.

Lemma X16_detail_string_witness :
  let body := VObject [("code", Data (VNumber 7)); ("detail", Data (VString "quota exceeded"))] in
  askQuestion (fun _ => Normal (mkResponse 429 (Normal body)))
              "http://localhost:8070" "hello" "thread_1"
  = Throw (Error "quota exceeded").
Proof.
  intros body.
  apply (X16_detail_string (fun _ => Normal (mkResponse 429 (Normal body)))
           "http://localhost:8070" "hello" "thread_1" (mkResponse 429 (Normal body))
           [("code", Data (VNumber 7)); ("detail", Data (VString "quota exceeded"))]).
  - reflexivity.
  - simpl. lia.
  - reflexivity.
  - reflexivity.
  - discriminate.
Defined.

Lemma X17_status_message_witness :
  let body := VObject [("detail", Data (VString EmptyString))] in
  askQuestion (fun _ => Normal (mkResponse 503 (Normal body)))
              "http://localhost:8070" "hello" "thread_1"
  = Throw (Error "HTTP error! status: 503").
Proof.
  intros body.
  apply (X17_status_message (fun _ => Normal (mkResponse 503 (Normal body)))
           "http://localhost:8070" "hello" "thread_1" (mkResponse 503 (Normal body))
           body (VString EmptyString)).
  - reflexivity.
  - simpl. lia.
  - reflexivity.
  - reflexivity.
  - reflexivity.
Defined.

(* ================================================================== *)
(** ** More on the conversation *)

Section ChatShape.

Lemma invariant_append (s : ChatState) (m : Message) :
  map id (messages s) = seq 1 (length (messages s)) ->
  map sender (messages s) = map turn (seq 0 (length (messages s))) ->
  id m = S (length (messages s)) ->
  sender m = turn (length (messages s)) ->
  map id (messages s ++ [m]) = seq 1 (length (messages s ++ [m]))
  /\ map sender (messages s ++ [m]) = map turn (seq 0 (length (messages s ++ [m]))).
Proof.
  intros Hi Hs Hm Ht.
  rewrite !map_app, length_app. cbn [length map].
  replace (length (messages s) + 1) with (S (length (messages s))) by lia.
  rewrite !seq_S, map_app, Hi, Hs, Hm, Ht. cbn [map Nat.add]. auto.
Qed.

Lemma invariant_begin (s : ChatState) :
  chat_invariant s -> chat_invariant (handleSend_begin s).
Proof.
  intros [Hi [Hs Hf]]. unfold handleSend_begin, can_send.
  destruct (trim_nonempty (input s) && negb (isLoading s)) eqn:G; [|now repeat split].
  apply andb_true_iff in G as [_ G]. apply negb_true_iff in G.
  destruct (inflight s) as [len|]; [destruct Hf as [Hl _]; congruence|].
  destruct Hf as [_ He].
  unfold chat_invariant. cbn [messages inflight isLoading setIsLoading setInput
                               setMessages_append input].
  destruct (invariant_append s
              (mkMessage (length (messages s) + 1) (VString (input s)) user VUndefined))
    as [Hi' Hs']; auto.
  - cbn [id]. lia.
  - cbn [sender]. unfold turn. now rewrite He.
  - repeat split; auto.
    + rewrite length_app. cbn [length]. lia.
    + rewrite length_app. cbn [length].
      replace (length (messages s) + 1) with (S (length (messages s))) by lia.
      rewrite Nat.even_succ, <- Nat.negb_even, He. reflexivity.
Qed.

Lemma invariant_resume (r : completion value) (s : ChatState) :
  chat_invariant s -> chat_invariant (handleSend_resume r s).
Proof.
  intros [Hi [Hs Hf]]. unfold handleSend_resume.
  destruct (inflight s) as [len|] eqn:F; [|unfold chat_invariant; rewrite F; auto].
  destruct Hf as [Hl [Hlen He]].
  assert (A : forall m, id m = len + 2 -> sender m = bot ->
                        chat_invariant
                          (mkState (messages s ++ [m]) (input s) false None)).
  { intros m Hm Hb. unfold chat_invariant. cbn [messages inflight isLoading].
    destruct (invariant_append s m) as [Hi' Hs']; auto.
    - rewrite Hm. lia.
    - rewrite Hb. unfold turn. now rewrite He.
    - repeat split; auto.
      rewrite length_app. cbn [length].
      replace (length (messages s) + 1) with (S (length (messages s))) by lia.
      rewrite Nat.even_succ, <- Nat.negb_even, He. reflexivity. }
  destruct (botResponse len r) as [m|e] eqn:B.
  - apply A.
    + unfold botResponse, and_then in B.
      destruct r as [response|]; [|discriminate].
      destruct (Get response "response"); [|discriminate].
      destruct (Get response "tool_data"); [|discriminate].
      now injection B as <-.
    + unfold botResponse, and_then in B.
      destruct r as [response|]; [|discriminate].
      destruct (Get response "response"); [|discriminate].
      destruct (Get response "tool_data"); [|discriminate].
      now injection B as <-.
  - apply A; reflexivity.
Qed.

Lemma reachable_invariant (s : ChatState) : reachable s -> chat_invariant s.
Proof.
  induction 1 as [|s ev _ IH|s key shiftKey _ IH].
  - repeat split.
  - destruct ev as [v| |r]; cbn [Chat.step].
    + exact IH.
    + now apply invariant_begin.
    + now apply invariant_resume.
  - unfold handleKeyPress.
    destruct ((key =? "Enter")%string && negb shiftKey); [now apply invariant_begin | exact IH].
Qed.

(** **** Extra X18.
    In every state the component can reach, the message ids are 1, 2, 3,
    ... in order, so no two messages share an id (the ids are the keys of
    the rendered list). *)
Theorem X18_ids_count_up (s : ChatState) :
  reachable s ->
  map id (messages s) = seq 1 (length (messages s))
  /\ NoDup (map id (messages s)).
Proof.
  intros H. destruct (reachable_invariant s H) as [Hi _].
  split; [exact Hi|]. rewrite Hi. apply seq_NoDup.
Qed.

(** **** Extra X19.
    In every state the component can reach, bot and user messages
    alternate, the greeting first, and the loading flag is set exactly while
    the last message is a user message that has no reply yet. *)
Theorem X19_turns_alternate (s : ChatState) :
  reachable s ->
  (forall i m, nth_error (messages s) i = Some m -> sender m = turn i)
  /\ isLoading s = Nat.even (length (messages s))
  /\ (isLoading s = true <-> inflight s <> None).
Proof.
  intros H. destruct (reachable_invariant s H) as [_ [Hs Hf]]. split; [|split].
  - intros i m Hn.
    pose proof (map_nth_error sender i (messages s) Hn) as E.
    rewrite Hs in E.
    assert (Hi : i < length (messages s)) by (apply nth_error_Some; congruence).
    rewrite (nth_error_nth' _ bot) in E by now rewrite length_map, length_seq.
    rewrite (map_nth turn) with (d := 0) in E.
    rewrite seq_nth in E by exact Hi.
    now injection E as <-.
  - destruct (inflight s); destruct Hf as [Hl He]; [destruct He as [_ He]|]; congruence.
  - destruct (inflight s); destruct Hf as [Hl He]; split; congruence.
Qed.

Lemma X18_ids_count_up_witness :
  let s := Chat.step (Chat.step (Chat.step Chat.initial (Typed "hello")) Submit)
                     (Settled (Normal body_hi)) in
  map id (messages s) = seq 1 (length (messages s)) /\ NoDup (map id (messages s)).
Proof.
  intros s. apply X18_ids_count_up.
  repeat apply reach_step. apply reach_initial.
Defined.

Lemma X19_turns_alternate_witness :
  let s := handleKeyPress "Enter" false (Chat.step Chat.initial (Typed "hello")) in
  (forall i m, nth_error (messages s) i = Some m -> sender m = turn i)
  /\ isLoading s = Nat.even (length (messages s))
  /\ (isLoading s = true <-> inflight s <> None).
Proof.
  intros s. apply X19_turns_alternate.
  apply reach_key. apply reach_step. apply reach_initial.
Defined.

(** **** Extra X20.
    The send button is disabled exactly when a call of [handleSend] would
    do nothing: a blank input or a request in flight. *)
Theorem X20_disabled_iff_no_effect (s : ChatState) :
  send_disabled s = true <-> Chat.step s Submit = s.
Proof.
  unfold send_disabled. cbn [Chat.step]. unfold handleSend_begin, can_send.
  destruct (trim_nonempty (input s)), (isLoading s); cbn; split; try reflexivity;
    try discriminate.
  intros H. apply (f_equal (fun x => length (messages x))) in H.
  cbn in H. rewrite length_app in H. cbn in H. lia.
Qed.

Lemma handleSend_shape (askQuestion : string -> string -> completion value)
      (threadId : string) (s : ChatState) :
  can_send s = true ->
  exists reply,
    handleSend askQuestion threadId s
    = mkState (messages s
               ++ [mkMessage (length (messages s) + 1) (VString (input s)) user VUndefined;
                   reply])
              EmptyString false None
    /\ (reply = errorMessage (length (messages s))
        \/ exists text tool_data,
             reply = mkMessage (length (messages s) + 2) text bot tool_data
             /\ botResponse (length (messages s)) (askQuestion (input s) threadId)
                = Normal reply).
Proof.
  intros G. unfold handleSend, handleSend_begin. rewrite G.
  unfold handleSend_resume.
  cbn [inflight messages input isLoading setIsLoading setInput setMessages_append].
  destruct (botResponse (length (messages s)) (askQuestion (input s) threadId))
    as [m|e] eqn:B.
  - exists m. cbn [messages input isLoading setIsLoading setInput setMessages_append].
    rewrite <- app_assoc. split; [reflexivity|]. right.
    unfold botResponse, and_then in B.
    destruct (askQuestion (input s) threadId) as [response|]; [|discriminate].
    destruct (Get response "response") as [t|]; [|discriminate].
    destruct (Get response "tool_data") as [d|]; [|discriminate].
    injection B as <-. eauto.
  - exists (errorMessage (length (messages s))).
    cbn [messages input isLoading setIsLoading setInput setMessages_append].
    rewrite <- app_assoc. split; [reflexivity | now left].
Qed.

(** **** Extra X21.
    A send that passes the guard always ends with exactly two new messages,
    the user's text and one bot reply with the next two ids, the input
    cleared and the loading flag down, whether the request succeeded or
    not. *)
Theorem X21_one_reply_per_send (askQuestion : string -> string -> completion value)
        (threadId : string) (s : ChatState) :
  can_send s = true ->
  exists reply,
    handleSend askQuestion threadId s
    = mkState (messages s
               ++ [mkMessage (length (messages s) + 1) (VString (input s)) user VUndefined;
                   reply])
              EmptyString false None
    /\ sender reply = bot
    /\ id reply = length (messages s) + 2.
Proof.
  intros G.
  destruct (handleSend_shape askQuestion threadId s G) as [reply [H [->|[t [d [-> _]]]]]];
    eexists; split; try exact H; split; reflexivity.
Qed.

Lemma X21_one_reply_per_send_witness :
  let s := setInput "hello" Chat.initial in
  exists reply,
    handleSend (fun _ _ => Throw (mkError "TypeError" "Failed to fetch")) "thread_1" s
    = mkState (messages s
               ++ [mkMessage (length (messages s) + 1) (VString (input s)) user VUndefined;
                   reply])
              EmptyString false None
    /\ sender reply = bot
    /\ id reply = length (messages s) + 2.
Proof.
  intros s.
  exact (X21_one_reply_per_send (fun _ _ => Throw (mkError "TypeError" "Failed to fetch"))
           "thread_1" s eq_refl).
Defined.

(** **** Extra X22.
    Whenever the request does not come back with a status from 200 to 299
    (the network failed, or the server answered with an error status,
    whatever its body), the reply shown is the fixed apology: the server's
    [detail] never reaches the conversation. *)
Theorem X22_fixed_error_reply (fetch : Request -> completion Response)
        (API_BASE_URL threadId : string) (s : ChatState) :
  can_send s = true ->
  (forall response,
      fetch (ask_request API_BASE_URL (input s) threadId) = Normal response ->
      ~ (200 <= status response <= 299)%Z) ->
  messages (handleSend (askQuestion fetch API_BASE_URL) threadId s)
  = messages s
    ++ [mkMessage (length (messages s) + 1) (VString (input s)) user VUndefined;
        mkMessage (length (messages s) + 2) (VString errorText) bot VUndefined].
Proof.
  intros G Hbad.
  destruct (handleSend_shape (askQuestion fetch API_BASE_URL) threadId s G)
    as [reply [H [->|[t [d [_ B]]]]]].
  - rewrite H. reflexivity.
  - exfalso. unfold botResponse, and_then in B.
    destruct (askQuestion fetch API_BASE_URL (input s) threadId) as [data|] eqn:A;
      [|discriminate].
    apply askQuestion_resolves in A as [response [Hf [Hs _]]].
    exact (Hbad response Hf Hs).
Qed.

Lemma X22_fixed_error_reply_witness :
  let fetch := fun _ : Request => Normal (mkResponse 404 (Normal body_bad_thread)) in
  let s := setInput "hello" Chat.initial in
  messages (handleSend (askQuestion fetch "http://localhost:8070") "thread_1" s)
  = messages s
    ++ [mkMessage (length (messages s) + 1) (VString (input s)) user VUndefined;
        mkMessage (length (messages s) + 2) (VString errorText) bot VUndefined].
Proof.
  intros fetch s.
  apply (X22_fixed_error_reply fetch "http://localhost:8070" "thread_1" s eq_refl).
  intros response H. injection H as <-. simpl. lia.
Defined.

End ChatShape.

(* ================================================================== *)
(** ** Sanity checks of the embedding on concrete inputs *)

Example classify_mp4 : classify "a.mp4" = VideoFile.
Proof. reflexivity. Qed.

Example classify_b : classify "b" = NonMedia.
Proof. reflexivity. Qed.

Example classify_rtsp : classify "RTSP://cam/a.mp4" = RtspStream.
Proof. reflexivity. Qed.

Example of_Z_404 : of_Z 404 = "404".
Proof. reflexivity. Qed.

Example extract_nested : extractVideoUrls payload_outer = Normal ["x"].
Proof. reflexivity. Qed.

Example extract_urls : extractVideoUrls payload_urls = Normal ["a.mp4"; "b"].
Proof. reflexivity. Qed.

Example extract_getter :
  extractVideoUrls
    (VObject [("url", Data (VString "a")); ("urls", Getter (Error "boom"));
              ("video_url", Data (VString "never reached"))])
  = Normal ["a"].
Proof. reflexivity. Qed.

Example extract_nested_getter :
  extractVideoUrls
    (VObject [("first", Data (VObject [("url", Getter (Error "boom"))]));
              ("second", Data (VObject [("url", Data (VString "x"))]))])
  = Normal ["x"].
Proof. reflexivity. Qed.

Example extract_array_top :
  extractVideoUrls (VArray [VObject [("url", Data (VString "x"))]]) = Normal ["x"].
Proof. reflexivity. Qed.

Example extract_empty_url :
  extractVideoUrls (VObject [("url", Data (VString EmptyString))]) = Normal [].
Proof. reflexivity. Qed.

Example extract_duplicates :
  extractVideoUrls
    (VObject [("url", Data (VString "u")); ("video_url", Data (VString "u"))])
  = Normal ["u"; "u"].
Proof. reflexivity. Qed.

Example ask_502 :
  askQuestion (fun _ => Normal (mkResponse 502 (Throw syntaxError)))
              "http://localhost:8070" "hello" "thread_1"
  = Throw syntaxError.
Proof. reflexivity. Qed.

Example ask_no_detail :
  askQuestion (fun _ => Normal (mkResponse 500 (Normal (VObject []))))
              "http://localhost:8070" "hello" "thread_1"
  = Throw (Error "HTTP error! status: 500").
Proof. reflexivity. Qed.

Example ask_bad_thread :
  askQuestion (fun _ => Normal (mkResponse 404 (Normal body_bad_thread)))
              "http://localhost:8070" "hello" "thread_1"
  = Throw (Error "bad thread").
Proof. reflexivity. Qed.

Example send_hi :
  messages (handleSend
              (askQuestion (fun _ => Normal (mkResponse 200 (Normal body_hi)))
                           "http://localhost:8070")
              "thread_1" (setInput "hello" initial))
  = [greeting;
     mkMessage 2 (VString "hello") user VUndefined;
     mkMessage 3 (VString "hi") bot payload_urls].
Proof. reflexivity. Qed.
